(** * Gate controller FSM ([tarea 2/codigo/main/main.c])

    A shallow embedding of the ESP32 gate controller: the global variables
    of [main.c] are gathered in one record ([world]), every C function is a
    computation in a small state monad over it, and the blocking [while]
    loops of the state handlers run against a trace of timer callbacks.

    Modelling conventions.
    - A GPIO level is a [bool]: [true] is level 1 (high), [false] is level 0.
    - The 1-bit fields of [io_t] are [bool]; the 3-bit field [lamp] is a [Z]
      reduced modulo 8; [tick50ms] is a [uint32_t], a [Z] reduced modulo 2^32.
    - [timer_cb] runs in the timer task.  The handlers only give up the
      processor in [vTaskDelay], so a run is described by the callbacks that
      fire during each successive [vTaskDelay]: a handler reads one whole
      snapshot of [io] per pass through its loop.
    - [ESP_LOGI]/[ESP_LOGE] only print; they are not modelled. *)

From Stdlib Require Import ZArith List Bool Lia.
Import ListNotations.
Open Scope Z_scope.

(** ** Constants, enumerations and the IO structure *)

Definition TIMER_PERIOD_US : Z := 50 * 1000.
Definition MAX_TICKS_3MIN : Z := 3600.

Inductive estado_t : Type :=
| EST_INIT_CONFIG
| EST_CERRANDO
| EST_ABRIENDO
| EST_ABIERTO
| EST_CERRADO
| EST_PARADO
| EST_ERROR.

Inductive error_t : Type :=
| ERR_OK
| ERR_DLSA
| ERR_TIMEOUT.

Definition error_eqb (a b : error_t) : bool :=
  match a, b with
  | ERR_OK, ERR_OK | ERR_DLSA, ERR_DLSA | ERR_TIMEOUT, ERR_TIMEOUT => true
  | _, _ => false
  end.

Record io_t : Type := mk_io {
  lsa : bool;
  lsc : bool;
  ftc : bool;
  pp : bool;
  ca : bool;
  ma : bool;
  mc : bool;
  lamp : Z
}.

Inductive gpio_num : Type :=
| PIN_LSA | PIN_LSC | PIN_FTC | PIN_PP | PIN_CA
| PIN_MA | PIN_MC | PIN_LAMP.

(** Levels present on the five input pins when the timer callback samples
    them. *)
Record sample : Type := mk_sample {
  lvl_LSA : bool;
  lvl_LSC : bool;
  lvl_FTC : bool;
  lvl_PP : bool;
  lvl_CA : bool
}.

(** Levels driven on the three output pins. *)
Record outputs : Type := mk_outputs {
  lvl_MA : bool;
  lvl_MC : bool;
  lvl_LAMP : bool
}.

(** The global variables of [main.c], the output pins, and [wave]: every
    combination of levels the output pins have been driven to, newest
    first (one entry per [gpio_set_level]). *)
Record world : Type := mk_world {
  estado_actual : estado_t;
  error_code : error_t;
  tick50ms : Z;
  io : io_t;
  pins : outputs;
  wave : list outputs
}.

Definition uint32 (z : Z) : Z := z mod 4294967296.
Definition bits3 (z : Z) : Z := z mod 8.

(** ** State monad over the globals *)

Definition M (A : Type) : Type := world -> A * world.

Definition ret {A : Type} (a : A) : M A := fun w => (a, w).
Definition bind {A B : Type} (c : M A) (k : A -> M B) : M B :=
  fun w => let (a, w') := c w in k a w'.
Definition exec {A : Type} (c : M A) (w : world) : world := snd (c w).

Declare Scope fsm_scope.
Delimit Scope fsm_scope with fsm.
Notation "x <- c ;; k" := (bind c (fun x => k))
  (at level 61, c at next level, right associativity) : fsm_scope.
Notation "c ;; k" := (bind c (fun _ => k))
  (at level 61, right associativity) : fsm_scope.
Open Scope fsm_scope.

Definition read_io : M io_t := fun w => (io w, w).
Definition read_tick50ms : M Z := fun w => (tick50ms w, w).
Definition read_error_code : M error_t := fun w => (error_code w, w).

Definition set_tick50ms (t : Z) : M unit := fun w =>
  (tt, mk_world (estado_actual w) (error_code w) (uint32 t) (io w) (pins w) (wave w)).
Definition set_error_code (e : error_t) : M unit := fun w =>
  (tt, mk_world (estado_actual w) e (tick50ms w) (io w) (pins w) (wave w)).
Definition set_estado_actual (s : estado_t) : M unit := fun w =>
  (tt, mk_world s (error_code w) (tick50ms w) (io w) (pins w) (wave w)).
Definition set_io (i : io_t) : M unit := fun w =>
  (tt, mk_world (estado_actual w) (error_code w) (tick50ms w) i (pins w) (wave w)).

(** ** GPIO *)

Definition gpio_get_level (p : gpio_num) (s : sample) : bool :=
  match p with
  | PIN_LSA => lvl_LSA s
  | PIN_LSC => lvl_LSC s
  | PIN_FTC => lvl_FTC s
  | PIN_PP => lvl_PP s
  | PIN_CA => lvl_CA s
  | _ => false
  end.

Definition drive (p : gpio_num) (level : bool) (o : outputs) : outputs :=
  match p with
  | PIN_MA => mk_outputs level (lvl_MC o) (lvl_LAMP o)
  | PIN_MC => mk_outputs (lvl_MA o) level (lvl_LAMP o)
  | PIN_LAMP => mk_outputs (lvl_MA o) (lvl_MC o) level
  | _ => o
  end.

Definition gpio_set_level (p : gpio_num) (level : bool) : M unit := fun w =>
  let o := drive p level (pins w) in
  (tt, mk_world (estado_actual w) (error_code w) (tick50ms w) (io w) o (o :: wave w)).

(** ** The 50 ms timer callback *)

Definition timer_cb (s : sample) : M unit :=
  t <- read_tick50ms ;;
  set_tick50ms (t + 1) ;;
  i <- read_io ;;
  set_io (mk_io (negb (gpio_get_level PIN_LSA s))
                (gpio_get_level PIN_LSC s)
                (gpio_get_level PIN_FTC s)
                (negb (gpio_get_level PIN_PP s))
                (gpio_get_level PIN_CA s)
                (ma i) (mc i) (lamp i)).

(** ** Motor and lamp *)

Definition motor_parar : M unit :=
  gpio_set_level PIN_MA false ;; gpio_set_level PIN_MC false.
Definition motor_abrir : M unit :=
  gpio_set_level PIN_MA true ;; gpio_set_level PIN_MC false.
Definition motor_cerrar : M unit :=
  gpio_set_level PIN_MA false ;; gpio_set_level PIN_MC true.

Definition lampara (e : Z) : M unit :=
  i <- read_io ;;
  set_io (mk_io (lsa i) (lsc i) (ftc i) (pp i) (ca i) (ma i) (mc i) (bits3 e)) ;;
  gpio_set_level PIN_LAMP (negb (e =? 0)).

(** ** Blocking loops

    One pass through the body of a handler's loop either returns the next
    state or reaches a [vTaskDelay]. *)

Inductive ctl : Type :=
| Return (e : estado_t)
| Delay (ms : Z).

(** [fired] lists the timer callbacks that run while the task sleeps. *)
Definition vTaskDelay (fired : list sample) (w : world) : world :=
  fold_left (fun w' s => exec (timer_cb s) w') fired w.

Definition trace : Type := list (list sample).

(** What a handler has done once the trace is used up: it has returned, or
    it is still asleep inside its loop. *)
Inductive result : Type :=
| Returned (e : estado_t) (rest : trace) (w : world)
| Blocked (w : world).

Fixpoint while_true (body : M ctl) (env : trace) (w : world) : result :=
  match body w with
  | (Return e, w') => Returned e env w'
  | (Delay _, w') =>
      match env with
      | [] => Blocked w'
      | fired :: env' => while_true body env' (vTaskDelay fired w')
      end
  end.

(** ** State handlers *)

Definition f_init_config : M estado_t :=
  motor_parar ;;
  lampara 0 ;;
  set_tick50ms 0 ;;
  set_error_code ERR_OK ;;
  i <- read_io ;;
  if lsa i && lsc i then (set_error_code ERR_DLSA ;; ret EST_ERROR)
  else if negb (lsa i) && negb (lsc i) then ret EST_CERRANDO
  else if lsc i then ret EST_CERRADO
  else if lsa i then ret EST_ABIERTO
  else ret EST_CERRADO.

Definition f_cerrando_entry : M unit :=
  motor_cerrar ;; lampara 2 ;; set_tick50ms 0.

Definition f_cerrando_loop : M ctl :=
  i <- read_io ;;
  if lsa i && lsc i then (set_error_code ERR_DLSA ;; ret (Return EST_ERROR))
  else if ftc i then ret (Return EST_ABRIENDO)
  else if lsc i then ret (Return EST_CERRADO)
  else
    t <- read_tick50ms ;;
    if t >? MAX_TICKS_3MIN then (set_error_code ERR_TIMEOUT ;; ret (Return EST_ERROR))
    else ret (Delay 50).

Definition f_cerrando (env : trace) (w : world) : result :=
  while_true f_cerrando_loop env (exec f_cerrando_entry w).

Definition f_abriendo_entry : M unit :=
  motor_abrir ;; lampara 2 ;; set_tick50ms 0.

Definition f_abriendo_loop : M ctl :=
  i <- read_io ;;
  if lsa i && lsc i then (set_error_code ERR_DLSA ;; ret (Return EST_ERROR))
  else if lsa i then ret (Return EST_ABIERTO)
  else if pp i then ret (Return EST_PARADO)
  else
    t <- read_tick50ms ;;
    if t >? MAX_TICKS_3MIN then (set_error_code ERR_TIMEOUT ;; ret (Return EST_ERROR))
    else ret (Delay 50).

Definition f_abriendo (env : trace) (w : world) : result :=
  while_true f_abriendo_loop env (exec f_abriendo_entry w).

Definition f_abierto_entry : M unit :=
  motor_parar ;; lampara 0 ;; set_tick50ms 0.

Definition f_abierto_loop : M ctl :=
  i <- read_io ;;
  if ftc i then (set_tick50ms 0 ;; ret (Delay 100))
  else if (pp i || ca i) && negb (ftc i) then ret (Return EST_CERRANDO)
  else if lsa i && lsc i then (set_error_code ERR_DLSA ;; ret (Return EST_ERROR))
  else
    t <- read_tick50ms ;;
    if t >? MAX_TICKS_3MIN then (set_error_code ERR_TIMEOUT ;; ret (Return EST_ERROR))
    else ret (Delay 50).

Definition f_abierto (env : trace) (w : world) : result :=
  while_true f_abierto_loop env (exec f_abierto_entry w).

Definition f_cerrado_entry : M unit :=
  motor_parar ;; lampara 0.

Definition f_cerrado_loop : M ctl :=
  i <- read_io ;;
  if pp i || ca i then ret (Return EST_ABRIENDO)
  else if negb (lsa i) && negb (lsc i) then ret (Return EST_CERRANDO)
  else if lsa i && lsc i then (set_error_code ERR_DLSA ;; ret (Return EST_ERROR))
  else ret (Delay 50).

Definition f_cerrado (env : trace) (w : world) : result :=
  while_true f_cerrado_loop env (exec f_cerrado_entry w).

Definition f_parado_entry : M unit :=
  motor_parar ;; lampara 3.

Definition f_parado_loop : M ctl :=
  i <- read_io ;;
  if pp i && negb (lsc i) then ret (Return EST_CERRANDO)
  else if lsa i && negb (ftc i) then ret (Return EST_ABRIENDO)
  else if lsa i && lsc i then (set_error_code ERR_DLSA ;; ret (Return EST_ERROR))
  else ret (Delay 50).

Definition f_parado (env : trace) (w : world) : result :=
  while_true f_parado_loop env (exec f_parado_entry w).

Definition f_error_entry : M unit :=
  motor_parar ;; lampara 1.

(** [while (io.lsa && io.lsc) vTaskDelay(100); return EST_INIT_CONFIG;] *)
Definition f_error_wait : M ctl :=
  i <- read_io ;;
  if lsa i && lsc i then ret (Delay 100) else ret (Return EST_INIT_CONFIG).

(** [while (1) vTaskDelay(1000);] *)
Definition f_error_grave : M ctl := ret (Delay 1000).

Definition f_error_loop : M ctl :=
  c <- read_error_code ;;
  if error_eqb c ERR_DLSA then f_error_wait else f_error_grave.

Definition f_error (env : trace) (w : world) : result :=
  let w1 := exec f_error_entry w in
  if error_eqb (error_code w1) ERR_DLSA
  then while_true f_error_wait env w1
  else while_true f_error_grave env w1.

(** ** Main loop *)

(** The [switch] of [app_main]: the handler of the current state. *)
Definition dispatch (s : estado_t) (env : trace) (w : world) : result :=
  match s with
  | EST_INIT_CONFIG => let (e, w') := f_init_config w in Returned e env w'
  | EST_CERRANDO => f_cerrando env w
  | EST_ABRIENDO => f_abriendo env w
  | EST_ABIERTO => f_abierto env w
  | EST_CERRADO => f_cerrado env w
  | EST_PARADO => f_parado env w
  | EST_ERROR => f_error env w
  end.

(** [while (true) { switch ...; vTaskDelay(10); }].  Every turn of the loop
    either blocks in a handler or uses one entry of the trace, so
    [S (length env)] turns are always enough (lemma [app_main_loop_total]). *)
Fixpoint app_main_loop (fuel : nat) (env : trace) (w : world) : option world :=
  match fuel with
  | O => None
  | S n =>
      match dispatch (estado_actual w) env w with
      | Blocked w' => Some w'
      | Returned e rest w' =>
          let w'' := exec (set_estado_actual e) w' in
          match rest with
          | [] => Some w''
          | fired :: rest' => app_main_loop n rest' (vTaskDelay fired w'')
          end
      end
  end.

(** Globals as the C initialisers leave them; output pins low. *)
Definition power_on : world :=
  mk_world EST_INIT_CONFIG ERR_OK 0
           (mk_io false false false false false false false 0)
           (mk_outputs false false false) [].

(** Pin configuration and timer start: no effect on the globals. *)
Definition setup_hardware : M unit := ret tt.

Definition app_main (env : trace) : option world :=
  app_main_loop (S (length env)) env (exec setup_hardware power_on).

(** ** One decision of the FSM

    [fsm_step s] is one evaluation of the guards of state [s] on the
    current snapshot and tick: one pass through the loop of the handler,
    or, for [f_init_config], which has no loop, the whole handler.
    [Return e] is a transition to [e]; [Delay _] stays in [s]. *)
Definition fsm_step (s : estado_t) : M ctl :=
  match s with
  | EST_INIT_CONFIG => e <- f_init_config ;; ret (Return e)
  | EST_CERRANDO => f_cerrando_loop
  | EST_ABRIENDO => f_abriendo_loop
  | EST_ABIERTO => f_abierto_loop
  | EST_CERRADO => f_cerrado_loop
  | EST_PARADO => f_parado_loop
  | EST_ERROR => f_error_loop
  end.

(** The entry actions of each handler (those of [f_init_config] are part
    of its single decision). *)
Definition fsm_entry (s : estado_t) : M unit :=
  match s with
  | EST_INIT_CONFIG => ret tt
  | EST_CERRANDO => f_cerrando_entry
  | EST_ABRIENDO => f_abriendo_entry
  | EST_ABIERTO => f_abierto_entry
  | EST_CERRADO => f_cerrado_entry
  | EST_PARADO => f_parado_entry
  | EST_ERROR => f_error_entry
  end.

Definition both_limits (w : world) : bool := lsa (io w) && lsc (io w).

(** Both motor drive outputs asserted at once. *)
Definition both_drives (o : outputs) : bool := lvl_MA o && lvl_MC o.

(** ** Spec-level vocabulary

    The names the specification uses for the values of the code. *)

Inductive GateState : Type :=
| Initializing | Closing | Opening | GateOpen | Closed | Stopped | Fault.

Inductive FaultCode : Type :=
| NoFault | ContradictoryLimits | MotionTimeout.

Inductive MotorCommand : Type :=
| MotorStop | MotorOpen | MotorClose.

Inductive LampCode : Type :=
| LampOff | LampFault | LampMoving | LampStopped.

Definition gate_state (s : estado_t) : GateState :=
  match s with
  | EST_INIT_CONFIG => Initializing
  | EST_CERRANDO => Closing
  | EST_ABRIENDO => Opening
  | EST_ABIERTO => GateOpen
  | EST_CERRADO => Closed
  | EST_PARADO => Stopped
  | EST_ERROR => Fault
  end.

Definition fault_code (e : error_t) : FaultCode :=
  match e with
  | ERR_OK => NoFault
  | ERR_DLSA => ContradictoryLimits
  | ERR_TIMEOUT => MotionTimeout
  end.

(** The argument [lampara] is called with for each lamp code. *)
Definition lamp_value (l : LampCode) : Z :=
  match l with
  | LampOff => 0
  | LampFault => 1
  | LampMoving => 2
  | LampStopped => 3
  end.

(** Levels of [PIN_MA] and [PIN_MC] for each motor command. *)
Definition motor_levels (c : MotorCommand) : bool * bool :=
  match c with
  | MotorStop => (false, false)
  | MotorOpen => (true, false)
  | MotorClose => (false, true)
  end.

Definition drives (o : outputs) : bool * bool := (lvl_MA o, lvl_MC o).

(** A step that ends in [Fault] with the given code. *)
Definition to_fault (r : ctl * world) (c : error_t) : Prop :=
  fst r = Return EST_ERROR /\ error_code (snd r) = c.

(** ** Predicates on runs *)

Definition result_world (r : result) : world :=
  match r with
  | Returned _ _ w => w
  | Blocked w => w
  end.

(** A computation that performs no [gpio_set_level]. *)
Definition keeps_pins {A : Type} (c : M A) : Prop :=
  forall w, pins (snd (c w)) = pins w /\ wave (snd (c w)) = wave w.

(** Everything in a world but the tick counter. *)
Definition same_but_tick (a b : world) : Prop :=
  estado_actual a = estado_actual b /\
  error_code a = error_code b /\
  io a = io b /\
  pins a = pins b /\
  wave a = wave b.

(** The timer callback finds the photocell active. *)
Definition beam_broken (s : sample) : Prop := lvl_FTC s = true.

(** Every timer callback of the trace finds the photocell active. *)
Definition photocell_held (env : trace) : Prop := Forall (Forall beam_broken) env.

(** The timer callback finds both limit switches active ([PIN_LSA] is
    active low, [PIN_LSC] active high). *)
Definition limits_contradict (s : sample) : Prop :=
  lvl_LSA s = false /\ lvl_LSC s = true.

Definition contradiction_held (env : trace) : Prop :=
  Forall (Forall limits_contradict) env.

(** ** The transition table of the specification *)

(** The snapshot of the specification, read off [io]. *)
Record IOState : Type := mk_IOState {
  limit_open : bool;
  limit_closed : bool;
  photocell : bool;
  push_button : bool;
  remote_open_command : bool
}.

Definition snapshot (i : io_t) : IOState :=
  mk_IOState (lsa i) (lsc i) (ftc i) (pp i) (ca i).

(** Outcome of one row of the table. *)
Inductive verdict : Type :=
| Goto (g : GateState)
| GotoFault (c : FaultCode)
| Stay.

(** The guards of the row "Closing" of the specification, in the order of
    the table, first match wins. *)
Definition closing_row (x : IOState) (tick : Z) : verdict :=
  if limit_open x && limit_closed x then GotoFault ContradictoryLimits
  else if photocell x then Goto Opening
  else if limit_closed x then Goto Closed
  else if tick >? 3600 then GotoFault MotionTimeout
  else Stay.

(** What a step of the code did, in the words of the table. *)
Definition verdict_of (r : ctl * world) : verdict :=
  match fst r with
  | Delay _ => Stay
  | Return EST_ERROR => GotoFault (fault_code (error_code (snd r)))
  | Return e => Goto (gate_state e)
  end.

(** ** The guards of [f_init_config] *)

(** The four guards of [f_init_config] in source order, each with the
    state its branch returns. *)
Definition init_guards (i : io_t) : list (bool * estado_t) :=
  [ (lsa i && lsc i, EST_ERROR);
    (negb (lsa i) && negb (lsc i), EST_CERRANDO);
    (lsc i, EST_CERRADO);
    (lsa i, EST_ABIERTO) ].

(** The branch taken by a cascade of guarded returns, if any. *)
Fixpoint first_match {A : Type} (gs : list (bool * A)) : option A :=
  match gs with
  | [] => None
  | (g, a) :: gs' => if g then Some a else first_match gs'
  end.

(** How many guards hold. *)
Definition matching {A : Type} (gs : list (bool * A)) : nat :=
  length (filter fst gs).

(** [f_init_config] with its last statement, [return EST_CERRADO], replaced
    by an arbitrary computation. *)
Definition f_init_config_with (fallback : M estado_t) : M estado_t :=
  motor_parar ;;
  lampara 0 ;;
  set_tick50ms 0 ;;
  set_error_code ERR_OK ;;
  i <- read_io ;;
  if lsa i && lsc i then (set_error_code ERR_DLSA ;; ret EST_ERROR)
  else if negb (lsa i) && negb (lsc i) then ret EST_CERRANDO
  else if lsc i then ret EST_CERRADO
  else if lsa i then ret EST_ABIERTO
  else fallback.

(** ** Input levels and worlds used as test points

    Levels are listed as [PIN_LSA], [PIN_LSC], [PIN_FTC], [PIN_PP],
    [PIN_CA]; [PIN_LSA] and [PIN_PP] are active low. *)

(** Photocell beam broken, nothing else active. *)
Definition obstacle : sample := mk_sample true false true true false.

(** Open limit, photocell, push button and remote command all active. *)
Definition button_under_beam : sample := mk_sample false false true false true.

(** Both limit switches active. *)
Definition both_limits_sample : sample := mk_sample false true false true false.

(** Only the closed limit active. *)
Definition closed_limit_sample : sample := mk_sample true true false true false.

(** Nothing active. *)
Definition limits_clear_sample : sample := mk_sample true false false true false.

(** Push button pressed and remote command on, nothing else active. *)
Definition obstacle_free : sample := mk_sample true false false false true.

(** Closed, both limit switches active, push button pressed. *)
Definition closed_button_both_limits : world :=
  mk_world EST_CERRADO ERR_OK 0
           (mk_io true true false true false false false 0)
           (mk_outputs false false false) [].

(** Open at tick 3601, photocell, push button and remote command active. *)
Definition open_beam_and_button : world :=
  mk_world EST_ABIERTO ERR_OK 3601
           (mk_io true false true true true false false 0)
           (mk_outputs false false false) [].

(** Fault with [ERR_DLSA], both limit switches active, close drive still on. *)
Definition fault_both_limits : world :=
  mk_world EST_ERROR ERR_DLSA 7
           (mk_io true true false false false false false 2)
           (mk_outputs false true true) [].

(** Fault with [ERR_TIMEOUT], close drive still on. *)
Definition fault_timeout : world :=
  mk_world EST_ERROR ERR_TIMEOUT 3601
           (mk_io false false false false false false false 2)
           (mk_outputs false true true) [].

(** Fault with no error code recorded. *)
Definition fault_without_code : world :=
  mk_world EST_ERROR ERR_OK 12
           (mk_io false true false true true false false 0)
           (mk_outputs true false false) [].

(** Closing at tick 3601, closed limit inactive, photocell active. *)
Definition closing_late_under_beam : world :=
  mk_world EST_CERRANDO ERR_OK 3601
           (mk_io false false true false false false false 2)
           (mk_outputs false true true) [].

(** Closing at tick 3601, no input active. *)
Definition closing_late : world :=
  mk_world EST_CERRANDO ERR_OK 3601
           (mk_io false false false false false false false 2)
           (mk_outputs false true true) [].

(** Closing at tick 40, push button and remote command active. *)
Definition closing_midway : world :=
  mk_world EST_CERRANDO ERR_OK 40
           (mk_io false false false true true false false 2)
           (mk_outputs false true true) [].

(** ** Sampling and elapsed ticks *)

(** The snapshot a timer callback stores for the given input levels. *)
Definition sampled (s : sample) : IOState :=
  mk_IOState (negb (lvl_LSA s)) (lvl_LSC s) (lvl_FTC s) (negb (lvl_PP s)) (lvl_CA s).

(** The tick counter holds a [uint32_t] value. *)
Definition tick_in_range (w : world) : Prop := 0 <= tick50ms w < 4294967296.

(** Number of timer callbacks of a trace. *)
Definition callbacks (env : trace) : nat := length (concat env).

(** ** Outputs and successors of each state *)

(** The values of the enumeration [estado_t]. *)
Definition estado_value (s : estado_t) : Z :=
  match s with
  | EST_INIT_CONFIG => 0
  | EST_CERRANDO => 1
  | EST_ABRIENDO => 2
  | EST_ABIERTO => 3
  | EST_CERRADO => 4
  | EST_PARADO => 5
  | EST_ERROR => 6
  end.

Definition estado_eqb (a b : estado_t) : bool := estado_value a =? estado_value b.

(** The motor command issued on entry by the handler of each state. *)
Definition state_motor (s : estado_t) : MotorCommand :=
  match s with
  | EST_CERRANDO => MotorClose
  | EST_ABRIENDO => MotorOpen
  | _ => MotorStop
  end.

(** The lamp code set on entry by the handler of each state. *)
Definition state_lamp (s : estado_t) : LampCode :=
  match s with
  | EST_INIT_CONFIG | EST_ABIERTO | EST_CERRADO => LampOff
  | EST_CERRANDO | EST_ABRIENDO => LampMoving
  | EST_PARADO => LampStopped
  | EST_ERROR => LampFault
  end.

(** The states the handler of each state has a [return] for. *)
Definition successors (s : estado_t) : list estado_t :=
  match s with
  | EST_INIT_CONFIG => [EST_ERROR; EST_CERRANDO; EST_CERRADO; EST_ABIERTO]
  | EST_CERRANDO => [EST_ERROR; EST_ABRIENDO; EST_CERRADO]
  | EST_ABRIENDO => [EST_ERROR; EST_ABIERTO; EST_PARADO]
  | EST_ABIERTO => [EST_CERRANDO; EST_ERROR]
  | EST_CERRADO => [EST_ABRIENDO; EST_CERRANDO; EST_ERROR]
  | EST_PARADO => [EST_CERRANDO; EST_ABRIENDO; EST_ERROR]
  | EST_ERROR => [EST_INIT_CONFIG]
  end.

(** The handler has returned the given state. *)
Definition returns_to (r : result) (e : estado_t) : bool :=
  match r with
  | Returned e' _ _ => estado_eqb e' e
  | Blocked _ => false
  end.

(** A world with the given snapshot, tick and error code, outputs low. *)
Definition probe (a c f p r : bool) (t : Z) (code : error_t) : world :=
  mk_world EST_INIT_CONFIG code t (mk_io a c f p r false false 0)
           (mk_outputs false false false) [].

(** A computation that leaves the lamp field of [io] alone. *)
Definition keeps_lamp {A : Type} (c : M A) : Prop :=
  forall w, lamp (io (snd (c w))) = lamp (io w).

(** ** What a handler can tell about the snapshot it last looked at *)

(** A return to Fault records [ERR_DLSA] with both limit switches active,
    or [ERR_TIMEOUT] with the tick above the threshold. *)
Definition fault_reason (w : world) : Prop :=
  (error_code w = ERR_DLSA /\ both_limits w = true) \/
  (error_code w = ERR_TIMEOUT /\ both_limits w = false /\
   tick50ms w > MAX_TICKS_3MIN).

(** Outcomes of [f_cerrando] in terms of the snapshot it decided on. *)
Definition cerrando_outcome (code : error_t) (r : result) : Prop :=
  match r with
  | Blocked w' =>
      ftc (io w') = false /\ lsc (io w') = false /\
      tick50ms w' <= MAX_TICKS_3MIN /\ error_code w' = code
  | Returned EST_ABRIENDO _ w' =>
      ftc (io w') = true /\ both_limits w' = false /\ error_code w' = code
  | Returned EST_CERRADO _ w' =>
      lsc (io w') = true /\ lsa (io w') = false /\ ftc (io w') = false /\
      error_code w' = code
  | Returned EST_ERROR _ w' =>
      fault_reason w' /\
      (error_code w' = ERR_TIMEOUT -> ftc (io w') = false /\ lsc (io w') = false)
  | Returned _ _ _ => False
  end.

(** Outcomes of [f_abriendo]. *)
Definition abriendo_outcome (code : error_t) (r : result) : Prop :=
  match r with
  | Blocked w' =>
      lsa (io w') = false /\ pp (io w') = false /\
      tick50ms w' <= MAX_TICKS_3MIN /\ error_code w' = code
  | Returned EST_ABIERTO _ w' =>
      lsa (io w') = true /\ lsc (io w') = false /\ error_code w' = code
  | Returned EST_PARADO _ w' =>
      pp (io w') = true /\ lsa (io w') = false /\ error_code w' = code
  | Returned EST_ERROR _ w' =>
      fault_reason w' /\
      (error_code w' = ERR_TIMEOUT -> lsa (io w') = false /\ pp (io w') = false)
  | Returned _ _ _ => False
  end.

(** Outcomes of [f_abierto]. *)
Definition abierto_outcome (code : error_t) (r : result) : Prop :=
  match r with
  | Blocked w' =>
      error_code w' = code /\
      ((ftc (io w') = true /\ tick50ms w' = 0) \/
       (ftc (io w') = false /\ pp (io w') = false /\ ca (io w') = false /\
        both_limits w' = false /\ tick50ms w' <= MAX_TICKS_3MIN))
  | Returned EST_CERRANDO _ w' =>
      ftc (io w') = false /\ pp (io w') || ca (io w') = true /\
      error_code w' = code
  | Returned EST_ERROR _ w' =>
      fault_reason w' /\
      ftc (io w') = false /\ pp (io w') = false /\ ca (io w') = false
  | Returned _ _ _ => False
  end.

(** Outcomes of [f_cerrado]. *)
Definition cerrado_outcome (code : error_t) (r : result) : Prop :=
  match r with
  | Blocked w' =>
      pp (io w') = false /\ ca (io w') = false /\
      xorb (lsa (io w')) (lsc (io w')) = true /\ error_code w' = code
  | Returned EST_ABRIENDO _ w' =>
      pp (io w') || ca (io w') = true /\ error_code w' = code
  | Returned EST_CERRANDO _ w' =>
      pp (io w') = false /\ ca (io w') = false /\
      lsa (io w') = false /\ lsc (io w') = false /\ error_code w' = code
  | Returned EST_ERROR _ w' =>
      error_code w' = ERR_DLSA /\ both_limits w' = true /\
      pp (io w') = false /\ ca (io w') = false
  | Returned _ _ _ => False
  end.

(** Outcomes of [f_parado]. *)
Definition parado_outcome (code : error_t) (r : result) : Prop :=
  match r with
  | Blocked w' =>
      pp (io w') && negb (lsc (io w')) = false /\
      lsa (io w') && negb (ftc (io w')) = false /\
      both_limits w' = false /\ error_code w' = code
  | Returned EST_CERRANDO _ w' =>
      pp (io w') = true /\ lsc (io w') = false /\ error_code w' = code
  | Returned EST_ABRIENDO _ w' =>
      lsa (io w') = true /\ ftc (io w') = false /\
      pp (io w') && negb (lsc (io w')) = false /\ error_code w' = code
  | Returned EST_ERROR _ w' =>
      error_code w' = ERR_DLSA /\ both_limits w' = true /\ ftc (io w') = true
  | Returned _ _ _ => False
  end.

(** ** Samples on which a state has nothing to act *)

(** Photocell and closed limit inactive: nothing for Closing to act on. *)
Definition idle_closing (s : sample) : Prop :=
  lvl_FTC s = false /\ lvl_LSC s = false.

(** Open limit inactive and push button released: nothing for Opening. *)
Definition idle_opening (s : sample) : Prop :=
  lvl_LSA s = true /\ lvl_PP s = true.

(** Photocell and commands inactive, limits not both active: nothing for
    Open. *)
Definition idle_open (s : sample) : Prop :=
  lvl_FTC s = false /\ lvl_PP s = true /\ lvl_CA s = false /\
  negb (lvl_LSA s) && lvl_LSC s = false.

(** No command and exactly one limit switch active: nothing for Closed. *)
Definition idle_closed (s : sample) : Prop :=
  lvl_PP s = true /\ lvl_CA s = false /\ xorb (negb (lvl_LSA s)) (lvl_LSC s) = true.

(** Push button released and open limit inactive: nothing for Stopped. *)
Definition idle_stopped (s : sample) : Prop :=
  lvl_PP s = true /\ lvl_LSA s = true.

(** The same conditions on the snapshot held in [io]. *)
Definition io_idle_closing (w : world) : Prop :=
  ftc (io w) = false /\ lsc (io w) = false.
Definition io_idle_opening (w : world) : Prop :=
  lsa (io w) = false /\ pp (io w) = false.
Definition io_idle_open (w : world) : Prop :=
  ftc (io w) = false /\ pp (io w) = false /\ ca (io w) = false /\
  both_limits w = false.
Definition io_idle_closed (w : world) : Prop :=
  pp (io w) = false /\ ca (io w) = false /\ xorb (lsa (io w)) (lsc (io w)) = true.
Definition io_idle_stopped (w : world) : Prop :=
  pp (io w) = false /\ lsa (io w) = false.

(** Nothing active at all. *)
Definition quiet : sample := mk_sample true false false true false.

(** Opening at tick 40, nothing active. *)
Definition opening_midway : world :=
  mk_world EST_ABRIENDO ERR_OK 40
           (mk_io false false false false false false false 2)
           (mk_outputs true false true) [].

(** Open at tick 40, open limit active, nothing else. *)
Definition open_at_rest : world :=
  mk_world EST_ABIERTO ERR_OK 40
           (mk_io true false false false false false false 0)
           (mk_outputs false false false) [].

(** Only the open limit active. *)
Definition open_limit_sample : sample := mk_sample false false false true false.

(** Closed at tick 4000, closed limit active, nothing else. *)
Definition closed_at_rest : world :=
  mk_world EST_CERRADO ERR_OK 4000
           (mk_io false true false false false false false 0)
           (mk_outputs false false false) [].

(** ** Invariants of the running controller *)

(** What does not depend on the state: the fields [ma] and [mc] of [io]
    are clear, the tick is a [uint32_t], the lamp field holds one of the
    four lamp codes and the lamp pin is high exactly when it is not 0. *)
Definition io_sound (w : world) : Prop :=
  ma (io w) = false /\ mc (io w) = false /\
  tick_in_range w /\
  0 <= lamp (io w) <= 3 /\
  lvl_LAMP (pins w) = negb (lamp (io w) =? 0).

(** State and error code agree: Fault always has a code, and a code is
    only recorded in Fault, or in Initializing on the way back from it. *)
Definition code_sound (s : estado_t) (c : error_t) : Prop :=
  (s = EST_ERROR -> c <> ERR_OK) /\
  (c <> ERR_OK -> s = EST_ERROR \/ s = EST_INIT_CONFIG).

Definition sound (w : world) : Prop :=
  code_sound (estado_actual w) (error_code w) /\ io_sound w.

(** Invariant of the loop of the handler of state [s] entered with error
    code [c]. *)
Definition loop_inv (s : estado_t) (c : error_t) (w : world) : Prop :=
  estado_actual w = s /\ error_code w = c /\ io_sound w.

(** About to close: both limits inactive, photocell active. *)
Definition closed_drifted_under_beam : world :=
  mk_world EST_CERRANDO ERR_OK 9
           (mk_io false false true false false false false 0)
           (mk_outputs false false false) [].

(** Fault with [ERR_DLSA], the contradiction gone: only the closed limit
    active. *)
Definition fault_closed_limit : world :=
  mk_world EST_ERROR ERR_DLSA 7
           (mk_io false true false false false false false 1)
           (mk_outputs false false true) [].

(** * Proofs *)

Lemma uint32_0 : uint32 0 = 0.
Proof. reflexivity. Qed.

Lemma gtb_MAX (t : Z) : (t >? MAX_TICKS_3MIN) = true <-> t > MAX_TICKS_3MIN.
Proof.
  rewrite Z.gtb_ltb, Z.ltb_lt. lia.
Qed.

Lemma gtb_MAX_false (t : Z) : (t >? MAX_TICKS_3MIN) = false <-> t <= MAX_TICKS_3MIN.
Proof.
  rewrite Z.gtb_ltb, Z.ltb_ge. lia.
Qed.

(** Splits a world into its fields and simplifies the handler at hand. *)
Ltac open_world w :=
  let s := fresh "s" in let e := fresh "e" in let t := fresh "t" in
  let i := fresh "i" in let p := fresh "p" in let wv := fresh "wv" in
  destruct w as [s e t i p wv];
  let a := fresh "lsa_" in let b := fresh "lsc_" in let c := fresh "ftc_" in
  let d := fresh "pp_" in let f := fresh "ca_" in let g := fresh "ma_" in
  let h := fresh "mc_" in let l := fresh "lamp_" in
  destruct i as [a b c d f g h l].

(** ** Motor commands and quiescent states *)

Lemma motor_parar_pins (w : world) :
  drives (pins (exec motor_parar w)) = motor_levels MotorStop.
Proof. reflexivity. Qed.

Lemma motor_abrir_pins (w : world) :
  drives (pins (exec motor_abrir w)) = motor_levels MotorOpen.
Proof. reflexivity. Qed.

Lemma motor_cerrar_pins (w : world) :
  drives (pins (exec motor_cerrar w)) = motor_levels MotorClose.
Proof. reflexivity. Qed.

Lemma motor_levels_exclusive (c : MotorCommand) :
  fst (motor_levels c) && snd (motor_levels c) = false.
Proof. destruct c; reflexivity. Qed.

(** ** C1: priority of the contradictory-limits guard *)

(** C1, counterexample.  In [EST_CERRADO] with both limit switches active
    and the push button pressed, the step does not go to [EST_ERROR]: the
    command guard of [f_cerrado] comes first and the step goes to
    [EST_ABRIENDO], with no error code set. *)
Lemma cerrado_command_before_limits :
  EST_CERRADO <> EST_ERROR /\
  both_limits closed_button_both_limits = true /\
  fsm_step EST_CERRADO closed_button_both_limits
    = (Return EST_ABRIENDO, closed_button_both_limits) /\
  ~ to_fault (fsm_step EST_CERRADO closed_button_both_limits) ERR_DLSA.
Proof.
  repeat split; try discriminate.
  intros [H _]. discriminate H.
Qed.

(** C1, amended.  With both limit switches active, the step from
    Initializing, Closing or Opening goes to Fault with code
    ContradictoryLimits whatever the other inputs and the tick are (the
    guard is the first one there).  In Open, Closed and Stopped the guard
    comes after the photocell and command guards: the step goes to
    Fault(ContradictoryLimits) exactly when none of those earlier guards
    matches, that is, in Open when photocell, push button and remote
    command are all inactive, in Closed when push button and remote command
    are inactive, in Stopped when the photocell is active. *)
Theorem contradictory_limits_priority (w : world)
  (Hboth : both_limits w = true) :
  to_fault (fsm_step EST_INIT_CONFIG w) ERR_DLSA /\
  to_fault (fsm_step EST_CERRANDO w) ERR_DLSA /\
  to_fault (fsm_step EST_ABRIENDO w) ERR_DLSA /\
  (to_fault (fsm_step EST_ABIERTO w) ERR_DLSA <->
     ftc (io w) = false /\ pp (io w) = false /\ ca (io w) = false) /\
  (to_fault (fsm_step EST_CERRADO w) ERR_DLSA <->
     pp (io w) = false /\ ca (io w) = false) /\
  (to_fault (fsm_step EST_PARADO w) ERR_DLSA <-> ftc (io w) = true).
Proof.
  open_world w. unfold both_limits in Hboth. cbn in Hboth.
  apply andb_prop in Hboth. destruct Hboth as [-> ->].
  unfold to_fault.
  repeat split; try reflexivity;
    destruct ftc_, pp_, ca_; cbn; intuition (try discriminate; try reflexivity).
Qed.

Lemma contradictory_limits_priority_witness :
  both_limits closed_button_both_limits = true /\
  to_fault (fsm_step EST_INIT_CONFIG closed_button_both_limits) ERR_DLSA /\
  to_fault (fsm_step EST_CERRANDO closed_button_both_limits) ERR_DLSA /\
  to_fault (fsm_step EST_ABRIENDO closed_button_both_limits) ERR_DLSA.
Proof.
  split; [reflexivity|].
  destruct (contradictory_limits_priority closed_button_both_limits eq_refl)
    as (Hi & Hc & Ha & _).
  exact (conj Hi (conj Hc Ha)).
Defined.

(** ** C2: the two motor drive outputs *)

Lemma timer_cb_keeps_pins (s : sample) : keeps_pins (timer_cb s).
Proof. intros w. split; reflexivity. Qed.

Lemma vTaskDelay_pins (fired : list sample) (w : world) :
  pins (vTaskDelay fired w) = pins w /\ wave (vTaskDelay fired w) = wave w.
Proof.
  revert w. induction fired as [|s fired IH]; intros w.
  - split; reflexivity.
  - change (vTaskDelay (s :: fired) w)
      with (vTaskDelay fired (exec (timer_cb s) w)).
    destruct (IH (exec (timer_cb s) w)) as [-> ->]. split; reflexivity.
Qed.

Lemma while_true_pins (body : M ctl) (Hbody : keeps_pins body)
  (env : trace) (w : world) :
  pins (result_world (while_true body env w)) = pins w /\
  wave (result_world (while_true body env w)) = wave w.
Proof.
  revert w. induction env as [|fired env IH]; intros w; cbn;
    destruct (Hbody w) as [Hp Hw]; destruct (body w) as [[e|ms] w']; cbn in *;
    try (split; assumption).
  destruct (IH (vTaskDelay fired w')) as [Hp' Hw'].
  destruct (vTaskDelay_pins fired w') as [Hp2 Hw2].
  rewrite Hp', Hw', Hp2, Hw2. split; assumption.
Qed.

Lemma loops_keep_pins (s : estado_t) (Hs : s <> EST_INIT_CONFIG) :
  keeps_pins (fsm_step s).
Proof.
  intros w. open_world w. destruct s; try congruence; cbn;
    destruct lsa_, lsc_, ftc_, pp_, ca_; cbn;
    try (destruct (t >? MAX_TICKS_3MIN)); try (destruct e); cbn;
    split; reflexivity.
Qed.

Lemma f_error_wait_keeps_pins : keeps_pins f_error_wait.
Proof.
  intros w. open_world w. cbn. destruct lsa_, lsc_; split; reflexivity.
Qed.

Lemma f_error_grave_keeps_pins : keeps_pins f_error_grave.
Proof. intros w. split; reflexivity. Qed.

Ltac quiescent_by H :=
  match goal with
  | |- both_drives (pins (result_world (while_true ?b ?env ?w0))) = false =>
      destruct (while_true_pins b H env w0) as [-> _]; reflexivity
  end.

(** Whenever a handler returns or sleeps, at most one drive is asserted. *)
Lemma dispatch_quiescent (s : estado_t) (env : trace) (w : world) :
  both_drives (pins (result_world (dispatch s env w))) = false.
Proof.
  destruct s; cbn [dispatch].
  - open_world w. cbn. destruct lsa_, lsc_; reflexivity.
  - unfold f_cerrando.
    quiescent_by (loops_keep_pins EST_CERRANDO ltac:(discriminate)).
  - unfold f_abriendo.
    quiescent_by (loops_keep_pins EST_ABRIENDO ltac:(discriminate)).
  - unfold f_abierto.
    quiescent_by (loops_keep_pins EST_ABIERTO ltac:(discriminate)).
  - unfold f_cerrado.
    quiescent_by (loops_keep_pins EST_CERRADO ltac:(discriminate)).
  - unfold f_parado.
    quiescent_by (loops_keep_pins EST_PARADO ltac:(discriminate)).
  - unfold f_error.
    destruct (error_eqb (error_code (exec f_error_entry w)) ERR_DLSA).
    + quiescent_by f_error_wait_keeps_pins.
    + quiescent_by f_error_grave_keeps_pins.
Qed.

Lemma app_main_loop_quiescent (n : nat) :
  forall env w w', app_main_loop n env w = Some w' ->
                   both_drives (pins w') = false.
Proof.
  induction n as [|n IH]; intros env w w' H; cbn in H; [discriminate|].
  pose proof (dispatch_quiescent (estado_actual w) env w) as Hq.
  destruct (dispatch (estado_actual w) env w) as [e rest w1|w1]; cbn in Hq.
  - destruct rest as [|fired rest].
    + injection H as <-. exact Hq.
    + eapply IH; eassumption.
  - injection H as <-. exact Hq.
Qed.

Lemma while_true_rest (body : M ctl) (env : trace) :
  forall w e rest w',
    while_true body env w = Returned e rest w' ->
    (length rest <= length env)%nat.
Proof.
  induction env as [|fired env IH]; intros w e rest w' H; cbn in H;
    destruct (body w) as [[e0|ms] w0]; try discriminate.
  - injection H as _ <- _. apply Nat.le_refl.
  - injection H as _ <- _. apply Nat.le_refl.
  - apply IH in H. cbn [length]. lia.
Qed.

Lemma dispatch_rest (s : estado_t) (env : trace) (w : world) e rest w' :
  dispatch s env w = Returned e rest w' -> (length rest <= length env)%nat.
Proof.
  destruct s; cbn [dispatch];
    unfold f_cerrando, f_abriendo, f_abierto, f_cerrado, f_parado, f_error;
    try apply while_true_rest.
  - destruct (f_init_config w). intros H. injection H as _ <- _. apply Nat.le_refl.
  - destruct (error_eqb _ _); apply while_true_rest.
Qed.

(** The main loop never runs out of turns on [app_main]'s fuel. *)
Lemma app_main_loop_total (n : nat) :
  forall env w, (length env < n)%nat -> exists w', app_main_loop n env w = Some w'.
Proof.
  induction n as [|n IH]; intros env w Hn; [lia|]. cbn [app_main_loop].
  destruct (dispatch (estado_actual w) env w) as [e rest w1|w1] eqn:Hd.
  - apply dispatch_rest in Hd.
    destruct rest as [|fired rest]; [eexists; reflexivity|].
    apply IH. cbn [length] in Hd. lia.
  - eexists; reflexivity.
Qed.

Lemma app_main_total (env : trace) : exists w, app_main env = Some w.
Proof. apply app_main_loop_total. apply Nat.lt_succ_diag_r. Qed.

(** At every point where the controller sleeps, at most one drive output
    is asserted. *)
Lemma app_main_quiescent (env : trace) (w : world) :
  app_main env = Some w -> both_drives (pins w) = false.
Proof. apply app_main_loop_quiescent. Qed.

(** [motor_abrir] issued while the close drive is asserted: the first write
    raises [PIN_MA] before the second one lowers [PIN_MC]. *)
Lemma motor_abrir_wave (w : world) (l : bool)
  (Hclosing : pins w = mk_outputs false true l) :
  wave (exec motor_abrir w)
  = mk_outputs true false l :: mk_outputs true true l :: wave w.
Proof.
  open_world w. cbn in *. subst p. reflexivity.
Qed.

(** [motor_cerrar] lowers [PIN_MA] before it raises [PIN_MC]. *)
Lemma motor_cerrar_wave (w : world) :
  wave (exec motor_cerrar w)
  = mk_outputs false true (lvl_LAMP (pins w))
    :: mk_outputs false (lvl_MC (pins w)) (lvl_LAMP (pins w)) :: wave w.
Proof. reflexivity. Qed.

(** C2, failing run.  Power on with both limit switches inactive, so that
    [f_init_config] returns [EST_CERRANDO]; the photocell is active when
    [f_cerrando] first looks, so it returns [EST_ABRIENDO]; [f_abriendo]
    then calls [motor_abrir] while [PIN_MC] is still high.  The output pins
    go through a combination with both drives asserted, although the
    controller ends the run with a single drive asserted. *)
Theorem motor_abrir_asserts_both_drives :
  exists w,
    app_main [[obstacle]; []] = Some w /\
    estado_actual w = EST_ABRIENDO /\
    In (mk_outputs true true true) (wave w) /\
    existsb both_drives (wave w) = true /\
    drives (pins w) = motor_levels MotorOpen.
Proof.
  eexists. split; [vm_compute; reflexivity|].
  repeat split; try reflexivity. cbn. tauto.
Qed.

(** ** What the timer callback leaves alone *)

Lemma vTaskDelay_cons (s : sample) (fired : list sample) (w : world) :
  vTaskDelay (s :: fired) w = vTaskDelay fired (exec (timer_cb s) w).
Proof. reflexivity. Qed.

Lemma vTaskDelay_snoc (fired : list sample) (s : sample) (w : world) :
  vTaskDelay (fired ++ [s]) w = exec (timer_cb s) (vTaskDelay fired w).
Proof. unfold vTaskDelay. rewrite fold_left_app. reflexivity. Qed.

Lemma vTaskDelay_frame (fired : list sample) (w : world) :
  estado_actual (vTaskDelay fired w) = estado_actual w /\
  error_code (vTaskDelay fired w) = error_code w /\
  lamp (io (vTaskDelay fired w)) = lamp (io w).
Proof.
  revert w. induction fired as [|s fired IH]; intros w.
  - repeat split.
  - rewrite vTaskDelay_cons.
    destruct (IH (exec (timer_cb s) w)) as (-> & -> & ->). repeat split.
Qed.

(** The snapshot after a sleep in which every callback saw [P] on the input
    pins satisfies whatever [P] forces on [io]. *)
Lemma vTaskDelay_inputs (Q : world -> Prop) (P : sample -> Prop)
  (Hcb : forall s w, P s -> Q (exec (timer_cb s) w))
  (fired : list sample) (w : world) :
  Q w -> Forall P fired -> Q (vTaskDelay fired w).
Proof.
  revert w. induction fired as [|s fired IH]; intros w Hw HP.
  - exact Hw.
  - rewrite vTaskDelay_cons. inversion HP; subst. apply IH; auto.
Qed.

(** ** C3: the photocell holds the gate open *)

Lemma f_abierto_loop_ftc (w : world) (Hftc : ftc (io w) = true) :
  f_abierto_loop w = (Delay 100, exec (set_tick50ms 0) w).
Proof.
  open_world w. cbn in Hftc. subst. reflexivity.
Qed.

Lemma f_abierto_loop_held (env : trace) :
  forall w, ftc (io w) = true -> photocell_held env ->
  exists w', while_true f_abierto_loop env w = Blocked w' /\
             tick50ms w' = 0 /\
             estado_actual w' = estado_actual w /\
             error_code w' = error_code w /\
             pins w' = pins w.
Proof.
  induction env as [|fired env IH]; intros w Hftc Hheld; cbn [while_true];
    rewrite (f_abierto_loop_ftc w Hftc).
  - eexists. split; [reflexivity|]. repeat split.
  - inversion Hheld as [|? ? Hfired Henv]; subst.
    destruct (IH (vTaskDelay fired (exec (set_tick50ms 0) w))) as (w' & Hrun & Ht & Hs & He & Hp).
    + apply (vTaskDelay_inputs (fun w0 => ftc (io w0) = true) beam_broken); auto.
    + exact Henv.
    + exists w'. split; [exact Hrun|]. split; [exact Ht|].
      destruct (vTaskDelay_frame fired (exec (set_tick50ms 0) w)) as (Hs' & He' & _).
      destruct (vTaskDelay_pins fired (exec (set_tick50ms 0) w)) as (Hp' & _).
      rewrite Hs, He, Hp, Hs', He', Hp'. repeat split.
Qed.

(** C3.  In Open with the photocell active the step stays in Open and
    resets the tick to zero, whatever the push button, the remote command
    and the limit switches read.  As long as every sample finds the
    photocell active the handler of Open never returns, neither to Closing
    nor to Fault: after any such trace it is still asleep in its loop, the
    tick is zero, the error code is untouched and the motor is stopped. *)
Theorem abierto_photocell_hold (env : trace) (w : world)
  (Hftc : ftc (io w) = true) (Hheld : photocell_held env) :
  fsm_step EST_ABIERTO w = (Delay 100, exec (set_tick50ms 0) w) /\
  tick50ms (exec (set_tick50ms 0) w) = 0 /\
  (exists w', while_true (fsm_step EST_ABIERTO) env w = Blocked w' /\
              tick50ms w' = 0 /\
              estado_actual w' = estado_actual w /\
              error_code w' = error_code w) /\
  (exists w', f_abierto env w = Blocked w' /\
              tick50ms w' = 0 /\
              estado_actual w' = estado_actual w /\
              error_code w' = error_code w /\
              drives (pins w') = motor_levels MotorStop).
Proof.
  split; [exact (f_abierto_loop_ftc w Hftc)|].
  split; [reflexivity|].
  split.
  - destruct (f_abierto_loop_held env w Hftc Hheld) as (w' & Hrun & Ht & Hs & He & _).
    exists w'. auto.
  - unfold f_abierto.
    destruct (f_abierto_loop_held env (exec f_abierto_entry w)) as (w' & Hrun & Ht & Hs & He & Hp).
    + open_world w. exact Hftc.
    + exact Hheld.
    + exists w'. split; [exact Hrun|]. split; [exact Ht|].
      unfold drives. rewrite Hs, He, Hp. repeat split.
Qed.

Lemma abierto_photocell_hold_witness :
  ftc (io open_beam_and_button) = true /\
  photocell_held [[button_under_beam]; []; [button_under_beam; button_under_beam]] /\
  fsm_step EST_ABIERTO open_beam_and_button
  = (Delay 100, exec (set_tick50ms 0) open_beam_and_button) /\
  exists w', f_abierto [[button_under_beam]; []; [button_under_beam; button_under_beam]]
               open_beam_and_button = Blocked w' /\ tick50ms w' = 0.
Proof.
  assert (Hheld : photocell_held
                    [[button_under_beam]; []; [button_under_beam; button_under_beam]]).
  { repeat constructor. }
  split; [reflexivity|]. split; [exact Hheld|].
  destruct (abierto_photocell_hold _ open_beam_and_button eq_refl Hheld)
    as (Hstep & _ & _ & w' & Hrun & Ht & _).
  split; [exact Hstep|]. exists w'. split; assumption.
Defined.

(** ** The handler of Fault *)

Lemma f_error_entry_frame (w : world) :
  estado_actual (exec f_error_entry w) = estado_actual w /\
  error_code (exec f_error_entry w) = error_code w /\
  both_limits (exec f_error_entry w) = both_limits w /\
  pins (exec f_error_entry w) = mk_outputs false false true /\
  lamp (io (exec f_error_entry w)) = lamp_value LampFault.
Proof. repeat split. Qed.

Lemma f_error_wait_hold (w : world) (Hboth : both_limits w = true) :
  f_error_wait w = (Delay 100, w).
Proof.
  unfold f_error_wait, bind, read_io, both_limits in *. rewrite Hboth. reflexivity.
Qed.

Lemma f_error_wait_release (w : world) (Hclear : both_limits w = false) :
  f_error_wait w = (Return EST_INIT_CONFIG, w).
Proof.
  unfold f_error_wait, bind, read_io, both_limits in *. rewrite Hclear. reflexivity.
Qed.

Lemma timer_cb_both_limits (s : sample) (w : world) :
  both_limits (exec (timer_cb s) w) = negb (lvl_LSA s) && lvl_LSC s.
Proof. reflexivity. Qed.

Lemma f_error_wait_held (env : trace) :
  forall w, both_limits w = true -> contradiction_held env ->
  exists w', while_true f_error_wait env w = Blocked w' /\
             both_limits w' = true /\
             estado_actual w' = estado_actual w /\
             error_code w' = error_code w /\
             pins w' = pins w /\
             lamp (io w') = lamp (io w).
Proof.
  induction env as [|fired env IH]; intros w Hboth Hheld; cbn [while_true];
    rewrite (f_error_wait_hold w Hboth).
  - exists w. repeat split. exact Hboth.
  - inversion Hheld as [|? ? Hfired Henv]; subst.
    destruct (IH (vTaskDelay fired w)) as (w' & Hrun & Hb & Hs & He & Hp & Hl).
    + apply (vTaskDelay_inputs (fun w0 => both_limits w0 = true) limits_contradict);
        auto.
      intros s w0 [Ha Hc]. rewrite timer_cb_both_limits, Ha, Hc. reflexivity.
    + exact Henv.
    + exists w'. split; [exact Hrun|]. split; [exact Hb|].
      destruct (vTaskDelay_frame fired w) as (Hs' & He' & Hl').
      destruct (vTaskDelay_pins fired w) as (Hp' & _).
      rewrite Hs, He, Hp, Hl, Hs', He', Hp', Hl'. repeat split.
Qed.

Lemma f_error_wait_released (held : trace) (fired : list sample) (s : sample)
  (rest : trace) (Hs : negb (lvl_LSA s) && lvl_LSC s = false) :
  forall w, both_limits w = true -> contradiction_held held ->
  exists w', while_true f_error_wait (held ++ (fired ++ [s]) :: rest) w
             = Returned EST_INIT_CONFIG rest w' /\
             lsa (io w') = negb (lvl_LSA s) /\
             lsc (io w') = lvl_LSC s /\
             estado_actual w' = estado_actual w /\
             error_code w' = error_code w /\
             pins w' = pins w.
Proof.
  induction held as [|batch held IH]; intros w Hboth Hheld;
    cbn [app while_true]; rewrite (f_error_wait_hold w Hboth).
  - rewrite vTaskDelay_snoc.
    destruct rest; cbn [while_true]; rewrite f_error_wait_release
      by (rewrite timer_cb_both_limits; exact Hs);
      (eexists; split; [reflexivity|]);
      destruct (vTaskDelay_frame fired w) as (Hs' & He' & _);
      destruct (vTaskDelay_pins fired w) as (Hp' & _);
      cbn; rewrite Hs', He', Hp'; repeat split.
  - inversion Hheld as [|? ? Hbatch Hheld']; subst.
    destruct (IH (vTaskDelay batch w)) as (w' & Hrun & Ha & Hc & Hst & He & Hp).
    + apply (vTaskDelay_inputs (fun w0 => both_limits w0 = true) limits_contradict);
        auto.
      intros s0 w0 [Ha Hc]. rewrite timer_cb_both_limits, Ha, Hc. reflexivity.
    + exact Hheld'.
    + exists w'. split; [exact Hrun|].
      destruct (vTaskDelay_frame batch w) as (Hs' & He' & _).
      destruct (vTaskDelay_pins batch w) as (Hp' & _).
      rewrite Ha, Hc, Hst, He, Hp, Hs', He', Hp'. repeat split.
Qed.

Lemma f_error_grave_blocks (env : trace) :
  forall w, exists w', while_true f_error_grave env w = Blocked w' /\
                       estado_actual w' = estado_actual w /\
                       error_code w' = error_code w /\
                       pins w' = pins w /\
                       lamp (io w') = lamp (io w).
Proof.
  induction env as [|fired env IH]; intros w; cbn [while_true f_error_grave ret].
  - exists w. repeat split.
  - destruct (IH (vTaskDelay fired w)) as (w' & Hrun & Hs & He & Hp & Hl).
    exists w'. split; [exact Hrun|].
    destruct (vTaskDelay_frame fired w) as (Hs' & He' & Hl').
    destruct (vTaskDelay_pins fired w) as (Hp' & _).
    rewrite Hs, He, Hp, Hl, Hs', He', Hp', Hl'. repeat split.
Qed.

(** With any error code but [ERR_DLSA], [f_error] stops the motor, lights
    the lamp and never returns. *)
Lemma f_error_other_blocks (env : trace) (w : world)
  (Hcode : error_code w <> ERR_DLSA) :
  exists w', f_error env w = Blocked w' /\
             estado_actual w' = estado_actual w /\
             error_code w' = error_code w /\
             pins w' = mk_outputs false false true /\
             lamp (io w') = lamp_value LampFault.
Proof.
  unfold f_error.
  destruct (f_error_entry_frame w) as (Hs & He & _ & Hp & Hl).
  rewrite He.
  assert (Hneq : error_eqb (error_code w) ERR_DLSA = false).
  { destruct (error_code w); try reflexivity. congruence. }
  rewrite Hneq.
  destruct (f_error_grave_blocks env (exec f_error_entry w))
    as (w' & Hrun & Hs' & He' & Hp' & Hl').
  exists w'. split; [exact Hrun|].
  rewrite Hs', He', Hp', Hl', Hs, He, Hp, Hl. repeat split.
Qed.

Lemma f_error_loop_other (w : world) (Hcode : error_code w <> ERR_DLSA) :
  fsm_step EST_ERROR w = (Delay 1000, w).
Proof.
  cbn. unfold f_error_loop, bind, read_error_code.
  destruct (error_code w); try reflexivity. congruence.
Qed.

(** Once [f_error] never returns, neither does the main loop. *)
Lemma app_main_loop_error_other (n : nat) (env : trace) (w : world)
  (Hstate : estado_actual w = EST_ERROR) (Hcode : error_code w <> ERR_DLSA) :
  exists w', app_main_loop (S n) env w = Some w' /\
             estado_actual w' = EST_ERROR /\
             error_code w' = error_code w /\
             pins w' = mk_outputs false false true /\
             lamp (io w') = lamp_value LampFault.
Proof.
  cbn [app_main_loop]. rewrite Hstate. cbn [dispatch].
  destruct (f_error_other_blocks env w Hcode) as (w' & Hrun & Hs & He & Hp & Hl).
  rewrite Hrun. exists w'. split; [reflexivity|].
  rewrite Hs, Hstate. auto.
Qed.

(** ** C4: recovery from contradictory limits *)

Lemma f_init_config_closed_limit (w : world)
  (Hlsa : lsa (io w) = false) (Hlsc : lsc (io w) = true) :
  fst (f_init_config w) = EST_CERRADO /\
  error_code (exec f_init_config w) = ERR_OK /\
  tick50ms (exec f_init_config w) = 0 /\
  drives (pins (exec f_init_config w)) = motor_levels MotorStop /\
  lamp (io (exec f_init_config w)) = lamp_value LampOff.
Proof.
  open_world w. cbn in Hlsa, Hlsc. subst. repeat split.
Qed.

Lemma f_init_config_error_code (w : world) :
  error_code (exec f_init_config w)
  = if both_limits w then ERR_DLSA else ERR_OK.
Proof.
  open_world w. unfold both_limits. cbn. destruct lsa_, lsc_; reflexivity.
Qed.

(** C4, counterexample.  In Fault with code ContradictoryLimits and only
    the closed limit active, the step goes to Initializing and leaves the
    error code at [ERR_DLSA]; run from the main loop, the controller
    arrives in [EST_INIT_CONFIG] with [ERR_DLSA] still recorded and the
    lamp still on Fault. *)
Lemma f_error_leaves_code_set :
  fsm_step EST_ERROR fault_closed_limit
  = (Return EST_INIT_CONFIG, fault_closed_limit) /\
  error_code fault_closed_limit = ERR_DLSA /\
  fault_code (error_code (snd (fsm_step EST_ERROR fault_closed_limit))) <> NoFault /\
  exists w1,
    app_main_loop 1 [[both_limits_sample]; [closed_limit_sample]] fault_both_limits
    = Some w1 /\
    estado_actual w1 = EST_INIT_CONFIG /\
    error_code w1 = ERR_DLSA /\
    lamp (io w1) = lamp_value LampFault.
Proof.
  split; [reflexivity|]. split; [reflexivity|]. split; [discriminate|].
  eexists. split; [vm_compute; reflexivity|]. repeat split.
Qed.

(** C4, amended.  In Fault with code ContradictoryLimits the step stays in
    Fault while both limit switches are active, and the handler stays in
    its wait loop as long as every sample finds them both active (motor
    stopped, lamp on Fault, code unchanged).  At the first sample [s] that
    does not, the handler returns Initializing with the error code still
    [ERR_DLSA]: [f_error] never writes it.  The code is cleared by the
    entry actions of the handler of Initializing, which runs at the next
    turn of the main loop: after [f_init_config] the code is [ERR_OK],
    unless both limits are active again by then, in which case it is
    [ERR_DLSA] once more.  When the sample reads limit_open inactive and
    limit_closed active, Initializing run on that snapshot returns Closed
    with the code [ERR_OK]; from the main loop the controller is first in
    [EST_INIT_CONFIG] with [ERR_DLSA], then, the snapshot unchanged, in
    [EST_CERRADO] with [ERR_OK]. *)
Theorem f_error_dlsa_recovery (w : world) (held : trace)
  (fired : list sample) (s : sample) (rest : trace)
  (Hcode : error_code w = ERR_DLSA)
  (Hboth : both_limits w = true)
  (Hheld : contradiction_held held)
  (Hclear : negb (lvl_LSA s) && lvl_LSC s = false) :
  fsm_step EST_ERROR w = (Delay 100, w) /\
  (exists wh, f_error held w = Blocked wh /\
              error_code wh = ERR_DLSA /\
              both_limits wh = true /\
              pins wh = mk_outputs false false true /\
              lamp (io wh) = lamp_value LampFault) /\
  (exists w1, f_error (held ++ (fired ++ [s]) :: rest) w
              = Returned EST_INIT_CONFIG rest w1 /\
              error_code w1 = ERR_DLSA /\
              lsa (io w1) = negb (lvl_LSA s) /\
              lsc (io w1) = lvl_LSC s /\
              error_code (exec f_init_config w1) = ERR_OK /\
              (lvl_LSA s = true -> lvl_LSC s = true ->
               fsm_step EST_INIT_CONFIG w1
               = (Return EST_CERRADO, exec f_init_config w1))) /\
  (forall wi, error_code (exec f_init_config wi)
              = if both_limits wi then ERR_DLSA else ERR_OK) /\
  (estado_actual w = EST_ERROR ->
   forall n,
     (exists w1, app_main_loop (S n) (held ++ [fired ++ [s]]) w = Some w1 /\
                 estado_actual w1 = EST_INIT_CONFIG /\
                 error_code w1 = ERR_DLSA) /\
     (lvl_LSA s = true -> lvl_LSC s = true ->
      exists w2, app_main_loop (S (S n)) (held ++ [fired ++ [s]; []]) w = Some w2 /\
                 estado_actual w2 = EST_CERRADO /\
                 error_code w2 = ERR_OK /\
                 drives (pins w2) = motor_levels MotorStop)).
Proof.
  destruct (f_error_entry_frame w) as (Hs0 & He0 & Hb0 & Hp0 & Hl0).
  assert (Hboth1 : both_limits (exec f_error_entry w) = true)
    by (rewrite Hb0; exact Hboth).
  assert (Hrel : forall rest0,
             exists w1, f_error (held ++ (fired ++ [s]) :: rest0) w
                        = Returned EST_INIT_CONFIG rest0 w1 /\
                        lsa (io w1) = negb (lvl_LSA s) /\
                        lsc (io w1) = lvl_LSC s /\
                        estado_actual w1 = estado_actual w /\
                        error_code w1 = ERR_DLSA).
  { intros rest0. unfold f_error. rewrite He0, Hcode. cbn [error_eqb].
    destruct (f_error_wait_released held fired s rest0 Hclear _ Hboth1 Hheld)
      as (w1 & Hrun & Ha & Hc & Hst & He & _).
    exists w1. rewrite Hst, Hs0, He, He0. auto. }
  split; [|split; [|split; [|split]]].
  - cbn. unfold f_error_loop, bind, read_error_code. rewrite Hcode. cbn [error_eqb].
    exact (f_error_wait_hold w Hboth).
  - unfold f_error. rewrite He0, Hcode. cbn [error_eqb].
    destruct (f_error_wait_held held _ Hboth1 Hheld)
      as (wh & Hrun & Hb & _ & He & Hp & Hl).
    exists wh. split; [exact Hrun|].
    rewrite He, Hp, Hl, He0, Hp0, Hl0. auto.
  - destruct (Hrel rest) as (w1 & Hrun & Ha & Hc & _ & He1). exists w1.
    split; [exact Hrun|]. split; [exact He1|]. split; [exact Ha|].
    split; [exact Hc|]. split.
    + rewrite f_init_config_error_code. unfold both_limits.
      rewrite Ha, Hc, Hclear. reflexivity.
    + intros HA HC. rewrite HA in Ha. rewrite HC in Hc. cbn in Ha.
      destruct (f_init_config_closed_limit w1 Ha Hc) as (Hr & _).
      cbn [fsm_step]. unfold bind at 1, exec. unfold ret at 1.
      destruct (f_init_config w1) as [e1 w1'] eqn:Hinit. cbn in Hr |- *.
      rewrite Hr. reflexivity.
  - exact f_init_config_error_code.
  - intros Hstate n. split.
    + cbn [app_main_loop]. rewrite Hstate. cbn [dispatch].
      destruct (Hrel []) as (w1 & Hrun & _ & _ & _ & He1). rewrite Hrun.
      eexists. split; [reflexivity|]. split; [reflexivity|exact He1].
    + intros HA HC.
      cbn [app_main_loop]. rewrite Hstate. cbn [dispatch].
      destruct (Hrel [[]]) as (w1 & Hrun & Ha & Hc & _). rewrite Hrun.
      rewrite HA in Ha. rewrite HC in Hc. cbn in Ha.
      cbn [vTaskDelay fold_left].
      change (estado_actual (exec (set_estado_actual EST_INIT_CONFIG) w1))
        with EST_INIT_CONFIG.
      cbn [dispatch].
      remember (exec (set_estado_actual EST_INIT_CONFIG) w1) as wi eqn:Hwi.
      assert (Ha' : lsa (io wi) = false) by (subst wi; exact Ha).
      assert (Hc' : lsc (io wi) = true) by (subst wi; exact Hc).
      destruct (f_init_config_closed_limit wi Ha' Hc') as (Hr & He2 & _ & Hp2 & _).
      unfold exec in He2, Hp2.
      destruct (f_init_config wi) as [e2 w2].
      cbn [fst snd] in Hr, He2, Hp2. subst e2.
      eexists. split; [reflexivity|]. repeat split; try reflexivity; assumption.
Qed.

Lemma f_error_dlsa_recovery_witness :
  error_code fault_both_limits = ERR_DLSA /\
  both_limits fault_both_limits = true /\
  contradiction_held [[both_limits_sample]; []] /\
  negb (lvl_LSA closed_limit_sample) && lvl_LSC closed_limit_sample = false /\
  fsm_step EST_ERROR fault_both_limits = (Delay 100, fault_both_limits) /\
  (exists w1,
     app_main_loop 1 ([[both_limits_sample]; []] ++ [[] ++ [closed_limit_sample]])
                   fault_both_limits = Some w1 /\
     estado_actual w1 = EST_INIT_CONFIG /\ error_code w1 = ERR_DLSA) /\
  (exists w2,
     app_main_loop 2 ([[both_limits_sample]; []] ++ [[] ++ [closed_limit_sample]; []])
                   fault_both_limits = Some w2 /\
     estado_actual w2 = EST_CERRADO /\ error_code w2 = ERR_OK).
Proof.
  assert (Hheld : contradiction_held [[both_limits_sample]; []]).
  { repeat constructor. }
  split; [reflexivity|]. split; [reflexivity|]. split; [exact Hheld|].
  split; [reflexivity|].
  destruct (f_error_dlsa_recovery fault_both_limits [[both_limits_sample]; []]
              [] closed_limit_sample [] eq_refl eq_refl Hheld eq_refl)
    as (Hstep & _ & _ & _ & Hmain).
  split; [exact Hstep|].
  destruct (Hmain eq_refl 0%nat) as ((w1 & Hrun1 & Hs1 & He1) & Hclosed).
  split; [exists w1; auto|].
  destruct (Hclosed eq_refl eq_refl) as (w2 & Hrun & Hs & He & _).
  exists w2. auto.
Defined.

(** ** C5: a motion timeout is terminal *)

(** C5.  In Fault with code MotionTimeout, whatever the inputs read, the
    step stays in Fault and changes nothing; the handler stops the motor,
    sets the lamp to Fault and never returns, whatever the timer callbacks
    sample afterwards; the main loop therefore stays in [EST_ERROR] with
    code [ERR_TIMEOUT] for every trace. *)
Theorem f_error_timeout_terminal (n : nat) (env : trace) (w : world)
  (Hstate : estado_actual w = EST_ERROR)
  (Hcode : error_code w = ERR_TIMEOUT) :
  fsm_step EST_ERROR w = (Delay 1000, w) /\
  (exists w', f_error env w = Blocked w' /\
              estado_actual w' = EST_ERROR /\
              error_code w' = ERR_TIMEOUT /\
              drives (pins w') = motor_levels MotorStop /\
              lvl_LAMP (pins w') = true /\
              lamp (io w') = lamp_value LampFault) /\
  (exists w', app_main_loop (S n) env w = Some w' /\
              estado_actual w' = EST_ERROR /\
              error_code w' = ERR_TIMEOUT /\
              drives (pins w') = motor_levels MotorStop /\
              lvl_LAMP (pins w') = true /\
              lamp (io w') = lamp_value LampFault).
Proof.
  assert (Hneq : error_code w <> ERR_DLSA) by (rewrite Hcode; discriminate).
  split; [exact (f_error_loop_other w Hneq)|]. split.
  - destruct (f_error_other_blocks env w Hneq) as (w' & Hrun & Hs & He & Hp & Hl).
    exists w'. split; [exact Hrun|]. unfold drives.
    rewrite Hs, He, Hp, Hl, Hstate, Hcode. repeat split.
  - destruct (app_main_loop_error_other n env w Hstate Hneq)
      as (w' & Hrun & Hs & He & Hp & Hl).
    exists w'. split; [exact Hrun|]. unfold drives.
    rewrite Hs, He, Hp, Hl, Hcode. repeat split.
Qed.

Lemma f_error_timeout_terminal_witness :
  estado_actual fault_timeout = EST_ERROR /\
  error_code fault_timeout = ERR_TIMEOUT /\
  fsm_step EST_ERROR fault_timeout = (Delay 1000, fault_timeout) /\
  exists w', app_main_loop 1 [[closed_limit_sample]; [obstacle]; []] fault_timeout
             = Some w' /\
             estado_actual w' = EST_ERROR /\
             drives (pins w') = motor_levels MotorStop.
Proof.
  split; [reflexivity|]. split; [reflexivity|].
  destruct (f_error_timeout_terminal 0 [[closed_limit_sample]; [obstacle]; []]
              fault_timeout eq_refl eq_refl)
    as (Hstep & _ & w' & Hrun & Hs & _ & Hp & _).
  split; [exact Hstep|]. exists w'. auto.
Defined.

(** ** C9: only ContradictoryLimits has a way out of Fault *)

Lemma f_error_dlsa_returns (w : world) (Hcode : error_code w = ERR_DLSA) :
  exists rest w', f_error [[limits_clear_sample]] w
                  = Returned EST_INIT_CONFIG rest w'.
Proof.
  unfold f_error.
  destruct (f_error_entry_frame w) as (_ & He & _).
  rewrite He, Hcode. cbn [error_eqb while_true].
  destruct (both_limits (exec f_error_entry w)) eqn:Hb.
  - rewrite (f_error_wait_hold _ Hb).
    rewrite f_error_wait_release by reflexivity.
    eexists. eexists. reflexivity.
  - rewrite (f_error_wait_release _ Hb). eexists. eexists. reflexivity.
Qed.

(** C9.  In Fault with any error code other than [ERR_DLSA] ([ERR_OK]
    included) the step stays in Fault, and the handler stops the motor,
    sets the lamp to Fault and never returns, whatever the inputs read.
    [ERR_DLSA] is the only code with a way out: for a world in Fault, some
    trace makes the handler return exactly when its code is [ERR_DLSA]. *)
Theorem f_error_only_dlsa_exits (w : world) :
  (error_code w <> ERR_DLSA ->
   forall env,
     fsm_step EST_ERROR w = (Delay 1000, w) /\
     (exists w', f_error env w = Blocked w' /\
                 estado_actual w' = estado_actual w /\
                 error_code w' = error_code w /\
                 drives (pins w') = motor_levels MotorStop /\
                 lvl_LAMP (pins w') = true /\
                 lamp (io w') = lamp_value LampFault) /\
     forall n, estado_actual w = EST_ERROR ->
               exists w', app_main_loop (S n) env w = Some w' /\
                          estado_actual w' = EST_ERROR /\
                          error_code w' = error_code w) /\
  ((exists env e rest w', f_error env w = Returned e rest w') <->
   error_code w = ERR_DLSA).
Proof.
  split.
  - intros Hneq env. split; [exact (f_error_loop_other w Hneq)|]. split.
    + destruct (f_error_other_blocks env w Hneq) as (w' & Hrun & Hs & He & Hp & Hl).
      exists w'. split; [exact Hrun|]. unfold drives.
      rewrite Hs, He, Hp, Hl. repeat split.
    + intros n Hstate.
      destruct (app_main_loop_error_other n env w Hstate Hneq)
        as (w' & Hrun & Hs & He & _).
      exists w'. auto.
  - split.
    + intros (env & e & rest & w' & Hrun).
      destruct (error_code w) eqn:Hc; try reflexivity; exfalso;
        assert (Hneq : error_code w <> ERR_DLSA) by (rewrite Hc; discriminate);
        destruct (f_error_other_blocks env w Hneq) as (wb & Hb & _);
        rewrite Hb in Hrun; discriminate Hrun.
    + intros Hcode.
      destruct (f_error_dlsa_returns w Hcode) as (rest & w' & Hrun).
      exists [[limits_clear_sample]], EST_INIT_CONFIG, rest, w'. exact Hrun.
Qed.

Lemma f_error_only_dlsa_exits_witness :
  error_code fault_without_code <> ERR_DLSA /\
  estado_actual fault_without_code = EST_ERROR /\
  fsm_step EST_ERROR fault_without_code = (Delay 1000, fault_without_code) /\
  exists w', app_main_loop 1 [[limits_clear_sample]; [closed_limit_sample]]
                           fault_without_code = Some w' /\
             estado_actual w' = EST_ERROR /\
             error_code w' = error_code fault_without_code.
Proof.
  assert (Hneq : error_code fault_without_code <> ERR_DLSA) by discriminate.
  split; [exact Hneq|]. split; [reflexivity|].
  destruct (f_error_only_dlsa_exits fault_without_code) as (Hstay & _).
  destruct (Hstay Hneq [[limits_clear_sample]; [closed_limit_sample]])
    as (Hstep & _ & Hmain).
  split; [exact Hstep|]. exact (Hmain 0%nat eq_refl).
Defined.

(** ** C6: the Closing row of the transition table *)

(** C6.  [f_cerrando] is its entry actions followed by its loop.  The
    entry actions drive the motor closed, set the lamp to Moving and reset
    the tick, leaving inputs, state and error code alone.  One pass through
    the loop decides exactly as the row "Closing" of the table read in
    priority order, and changes nothing except the error code it sets when
    it goes to Fault. *)
Theorem f_cerrando_follows_closing_row (env : trace) (w : world) :
  f_cerrando env w = while_true (fsm_step EST_CERRANDO) env (exec f_cerrando_entry w) /\
  (drives (pins (exec f_cerrando_entry w)) = motor_levels MotorClose /\
   lamp (io (exec f_cerrando_entry w)) = lamp_value LampMoving /\
   lvl_LAMP (pins (exec f_cerrando_entry w)) = true /\
   tick50ms (exec f_cerrando_entry w) = 0 /\
   snapshot (io (exec f_cerrando_entry w)) = snapshot (io w) /\
   estado_actual (exec f_cerrando_entry w) = estado_actual w /\
   error_code (exec f_cerrando_entry w) = error_code w) /\
  verdict_of (fsm_step EST_CERRANDO w) = closing_row (snapshot (io w)) (tick50ms w) /\
  snd (fsm_step EST_CERRANDO w)
  = match closing_row (snapshot (io w)) (tick50ms w) with
    | GotoFault ContradictoryLimits => exec (set_error_code ERR_DLSA) w
    | GotoFault MotionTimeout => exec (set_error_code ERR_TIMEOUT) w
    | _ => w
    end.
Proof.
  split; [reflexivity|]. split; [repeat split|].
  open_world w. unfold closing_row, verdict_of.
  change 3600 with MAX_TICKS_3MIN. cbn.
  destruct lsa_, lsc_, ftc_; cbn; try (split; reflexivity);
    destruct (t >? MAX_TICKS_3MIN); cbn; split; reflexivity.
Qed.

(** ** C7: the timeout threshold in Closing *)

(** C7, counterexample.  In Closing at tick 3601 with the closed limit
    inactive but the photocell active, the step goes to Opening, not to
    Fault: the photocell guard comes before the timeout guard. *)
Lemma cerrando_photocell_before_timeout :
  tick50ms closing_late_under_beam = 3601 /\
  lsc (io closing_late_under_beam) = false /\
  fsm_step EST_CERRANDO closing_late_under_beam
  = (Return EST_ABRIENDO, closing_late_under_beam) /\
  ~ to_fault (fsm_step EST_CERRANDO closing_late_under_beam) ERR_TIMEOUT.
Proof.
  repeat split. intros [H _]. discriminate H.
Qed.

Lemma f_cerrando_loop_timeout_guard (w : world)
  (Hlsc : lsc (io w) = false) (Hftc : ftc (io w) = false) :
  fsm_step EST_CERRANDO w
  = if tick50ms w >? MAX_TICKS_3MIN
    then (Return EST_ERROR, exec (set_error_code ERR_TIMEOUT) w)
    else (Delay 50, w).
Proof.
  open_world w. cbn in Hlsc, Hftc. subst.
  destruct lsa_; cbn -[Z.gtb MAX_TICKS_3MIN];
    destruct (t >? MAX_TICKS_3MIN); reflexivity.
Qed.

(** C7, amended.  In Closing with the closed limit and the photocell both
    inactive, a step at tick 3601 goes to Fault with code MotionTimeout;
    with those inputs the step goes to Fault(MotionTimeout) exactly when
    the tick is strictly greater than [MAX_TICKS_3MIN], which is 3600, and
    stays in Closing otherwise. *)
Theorem cerrando_timeout_threshold (w : world)
  (Hlsc : lsc (io w) = false) (Hftc : ftc (io w) = false) :
  MAX_TICKS_3MIN = 3600 /\
  (tick50ms w = 3601 -> to_fault (fsm_step EST_CERRANDO w) ERR_TIMEOUT) /\
  (to_fault (fsm_step EST_CERRANDO w) ERR_TIMEOUT <-> tick50ms w > MAX_TICKS_3MIN) /\
  (tick50ms w <= MAX_TICKS_3MIN <-> fsm_step EST_CERRANDO w = (Delay 50, w)).
Proof.
  unfold to_fault. rewrite (f_cerrando_loop_timeout_guard w Hlsc Hftc).
  split; [reflexivity|]. split; [|split].
  - intros ->. split; reflexivity.
  - destruct (tick50ms w >? MAX_TICKS_3MIN) eqn:Hgt; cbn [fst snd].
    + apply gtb_MAX in Hgt. split; [intros _; exact Hgt|intros _; split; reflexivity].
    + apply gtb_MAX_false in Hgt. split; [intros [H _]; discriminate H|lia].
  - destruct (tick50ms w >? MAX_TICKS_3MIN) eqn:Hgt.
    + apply gtb_MAX in Hgt. split; [lia|intros H; discriminate H].
    + apply gtb_MAX_false in Hgt. split; [reflexivity|intros _; exact Hgt].
Qed.

Lemma cerrando_timeout_threshold_witness :
  lsc (io closing_late) = false /\
  ftc (io closing_late) = false /\
  tick50ms closing_late = 3601 /\
  to_fault (fsm_step EST_CERRANDO closing_late) ERR_TIMEOUT.
Proof.
  split; [reflexivity|]. split; [reflexivity|]. split; [reflexivity|].
  destruct (cerrando_timeout_threshold closing_late eq_refl eq_refl)
    as (_ & Hfire & _).
  exact (Hfire eq_refl).
Defined.

(** ** C8: a state that stays is a fixed point *)

(** Closes a case of the fixed-point theorem once the inputs are known: the
    step was a [Delay], so the world is unchanged, and a world with the
    same snapshot decides alike. *)
Ltac stay_untimed Hstay :=
  try discriminate Hstay;
  injection Hstay as <- <-; (split; [repeat split|]);
  (split; [reflexivity|]);
  let w2 := fresh "w2" in
  let Hsnap := fresh "Hsnap" in let Hcode := fresh "Hcode" in
  intros w2 Hsnap Hcode _; open_world w2;
  cbn in Hsnap, Hcode; injection Hsnap as -> -> -> -> ->; subst; reflexivity.

(** The same for a state whose last guard is the timeout. *)
Ltac stay_timed t Hstay :=
  try discriminate Hstay;
  let Hgt := fresh "Hgt" in
  destruct (t >? MAX_TICKS_3MIN) eqn:Hgt; try discriminate Hstay;
  injection Hstay as <- <-; (split; [repeat split|]);
  (split; [cbn -[Z.gtb MAX_TICKS_3MIN]; rewrite Hgt; reflexivity|]);
  let w2 := fresh "w2" in
  let Hsnap := fresh "Hsnap" in let Hcode := fresh "Hcode" in
  let Htick := fresh "Htick" in
  intros w2 Hsnap Hcode Htick; open_world w2;
  cbn in Hsnap, Hcode, Htick; injection Hsnap as -> -> -> -> ->;
  cbn -[Z.gtb MAX_TICKS_3MIN];
  apply gtb_MAX_false in Hgt;
  match goal with
  | |- context [?t2 >? MAX_TICKS_3MIN] =>
      replace (t2 >? MAX_TICKS_3MIN) with false
        by (symmetry; apply gtb_MAX_false; lia)
  end;
  reflexivity.

(** C8.  If the step from state [s] stays in [s], then it has changed
    nothing but possibly the tick counter; repeating the step on the
    resulting world, with the same snapshot and the tick as the step left
    it, stays in [s] and changes nothing at all; and so does the step from
    any world with the same snapshot and error code whose tick is either
    the same or not above the timeout threshold. *)
Theorem stay_is_fixed_point (s : estado_t) (w w' : world) (ms : Z)
  (Hstay : fsm_step s w = (Delay ms, w')) :
  same_but_tick w w' /\
  fsm_step s w' = (Delay ms, w') /\
  forall w2, snapshot (io w2) = snapshot (io w) ->
             error_code w2 = error_code w ->
             tick50ms w2 = tick50ms w \/ tick50ms w2 <= MAX_TICKS_3MIN ->
             fst (fsm_step s w2) = Delay ms.
Proof.
  open_world w. unfold same_but_tick.
  destruct s; cbn -[Z.gtb MAX_TICKS_3MIN] in Hstay.
  - destruct lsa_, lsc_; discriminate Hstay.
  - destruct lsa_, lsc_, ftc_; cbn -[Z.gtb MAX_TICKS_3MIN] in Hstay;
      stay_timed t Hstay.
  - destruct lsa_, lsc_, pp_; cbn -[Z.gtb MAX_TICKS_3MIN] in Hstay;
      stay_timed t Hstay.
  - destruct ftc_.
    + cbn in Hstay. stay_untimed Hstay.
    + destruct lsa_, lsc_, pp_, ca_; cbn -[Z.gtb MAX_TICKS_3MIN] in Hstay;
        stay_timed t Hstay.
  - destruct lsa_, lsc_, pp_, ca_; cbn in Hstay; stay_untimed Hstay.
  - destruct lsa_, lsc_, ftc_, pp_; cbn in Hstay; stay_untimed Hstay.
  - destruct e, lsa_, lsc_; cbn in Hstay; stay_untimed Hstay.
Qed.

Lemma stay_is_fixed_point_witness :
  fsm_step EST_CERRANDO closing_midway = (Delay 50, closing_midway) /\
  same_but_tick closing_midway closing_midway /\
  fst (fsm_step EST_CERRANDO (exec (timer_cb obstacle_free) closing_midway)) = Delay 50.
Proof.
  assert (Hstay : fsm_step EST_CERRANDO closing_midway = (Delay 50, closing_midway))
    by reflexivity.
  destruct (stay_is_fixed_point EST_CERRANDO closing_midway closing_midway 50 Hstay)
    as (Hsame & _ & Hagain).
  split; [exact Hstay|]. split; [exact Hsame|].
  apply Hagain; [reflexivity|reflexivity|].
  right. vm_compute. discriminate.
Defined.

(** ** C10: the fallback of Initializing *)

(** C10, counterexample.  With both limit switches active, three of the
    four guards of [f_init_config] hold (the first, the third and the
    fourth), not exactly one. *)
Lemma init_guards_overlap :
  map fst (init_guards (io closed_button_both_limits)) = [true; false; true; true] /\
  matching (init_guards (io closed_button_both_limits)) = 3%nat /\
  matching (init_guards (io closed_button_both_limits)) <> 1%nat.
Proof.
  repeat split. discriminate.
Qed.

(** C10, amended.  The final [return EST_CERRADO] of [f_init_config] is
    never executed: whatever stands in its place, the handler behaves the
    same.  For every snapshot at least one of the four preceding guards
    holds: exactly one when the limit switches are not both active, three
    (the first, third and fourth) when they are; the state returned is the
    one of the first guard that holds. *)
Theorem f_init_config_fallback_unreachable (w : world) :
  f_init_config_with (ret EST_CERRADO) = f_init_config /\
  (forall fallback, f_init_config_with fallback w = f_init_config w) /\
  first_match (init_guards (io w)) = Some (fst (f_init_config w)) /\
  matching (init_guards (io w)) = (if both_limits w then 3 else 1)%nat /\
  (1 <= matching (init_guards (io w)))%nat.
Proof.
  split; [reflexivity|].
  open_world w. unfold both_limits.
  destruct lsa_, lsc_; cbn; repeat split; auto.
Qed.

(** * Further properties of the code *)

(** ** Loops against a trace *)

(** Induction principle for a blocking loop: an invariant kept by the timer
    callback and by every pass that sleeps holds at the pass that ends the
    run, whether that pass returns or is the last one before the trace
    runs out. *)
Lemma while_true_ind (P : world -> Prop) (body : M ctl)
  (Hcb : forall w s, P w -> P (exec (timer_cb s) w))
  (Hbody : forall w ms w', P w -> body w = (Delay ms, w') -> P w') :
  forall env w, P w ->
  match while_true body env w with
  | Returned e rest w' => exists w0, P w0 /\ body w0 = (Return e, w')
  | Blocked w' => exists w0 ms, P w0 /\ body w0 = (Delay ms, w')
  end.
Proof.
  assert (Hdelay : forall fired w, P w -> P (vTaskDelay fired w)).
  { induction fired as [|s fired IH]; intros w Hw; [exact Hw|].
    rewrite vTaskDelay_cons. apply IH, Hcb, Hw. }
  induction env as [|fired env IH]; intros w Hw; cbn [while_true];
    destruct (body w) as [[e|ms] w1] eqn:Hb.
  - exists w. auto.
  - exists w, ms. auto.
  - exists w. auto.
  - apply IH, Hdelay. exact (Hbody w ms w1 Hw Hb).
Qed.

(** ** The timer callback *)

Lemma uint32_succ (t : Z) (Ht : 0 <= t < 4294967296) :
  uint32 (t + 1) = if t =? 4294967295 then 0 else t + 1.
Proof.
  unfold uint32. destruct (t =? 4294967295) eqn:E.
  - apply Z.eqb_eq in E. subst. reflexivity.
  - apply Z.eqb_neq in E. apply Z.mod_small. lia.
Qed.

(** X1.  One timer callback adds one to the tick counter, wrapping from
    4294967295 to 0, stores the five inputs with their polarity normalised
    ([PIN_LSA] and [PIN_PP] active low, the others active high), and
    touches neither the state, the error code, the lamp field, the unused
    fields [ma] and [mc], nor any output pin. *)
Theorem timer_cb_effect (s : sample) (w : world) (Hrange : tick_in_range w) :
  tick50ms (exec (timer_cb s) w)
  = (if tick50ms w =? 4294967295 then 0 else tick50ms w + 1) /\
  tick_in_range (exec (timer_cb s) w) /\
  snapshot (io (exec (timer_cb s) w)) = sampled s /\
  estado_actual (exec (timer_cb s) w) = estado_actual w /\
  error_code (exec (timer_cb s) w) = error_code w /\
  lamp (io (exec (timer_cb s) w)) = lamp (io w) /\
  ma (io (exec (timer_cb s) w)) = ma (io w) /\
  mc (io (exec (timer_cb s) w)) = mc (io w) /\
  pins (exec (timer_cb s) w) = pins w /\
  wave (exec (timer_cb s) w) = wave w.
Proof.
  unfold tick_in_range in *.
  change (tick50ms (exec (timer_cb s) w)) with (uint32 (tick50ms w + 1)).
  split; [exact (uint32_succ _ Hrange)|].
  split; [unfold uint32; apply Z.mod_pos_bound; lia|].
  repeat split.
Qed.

(** A world whose tick counter holds [UINT32_MAX]. *)
Lemma timer_cb_effect_witness :
  tick_in_range (exec (set_tick50ms 4294967295) closing_midway) /\
  tick50ms (exec (timer_cb obstacle) (exec (set_tick50ms 4294967295) closing_midway)) = 0 /\
  snapshot (io (exec (timer_cb obstacle) (exec (set_tick50ms 4294967295) closing_midway)))
  = mk_IOState false false true false false.
Proof.
  assert (Hr : tick_in_range (exec (set_tick50ms 4294967295) closing_midway))
    by (vm_compute; split; [discriminate|reflexivity]).
  split; [exact Hr|].
  destruct (timer_cb_effect obstacle _ Hr) as (Ht & _ & Hs & _).
  split; [exact Ht|exact Hs].
Defined.

Lemma uint32_idem_succ (t : Z) : uint32 (uint32 t + 1) = uint32 (t + 1).
Proof.
  unfold uint32. rewrite Z.add_mod_idemp_l by lia. reflexivity.
Qed.

Lemma vTaskDelay_tick (fired : list sample) :
  forall w, tick_in_range w ->
  tick50ms (vTaskDelay fired w) = uint32 (tick50ms w + Z.of_nat (length fired)).
Proof.
  induction fired as [|s fired IH]; intros w Hr.
  - cbn [length vTaskDelay fold_left Z.of_nat]. rewrite Z.add_0_r.
    unfold uint32. symmetry. apply Z.mod_small. exact Hr.
  - rewrite vTaskDelay_cons, IH.
    + change (tick50ms (exec (timer_cb s) w)) with (uint32 (tick50ms w + 1)).
      unfold uint32. rewrite Z.add_mod_idemp_l by lia.
      f_equal. cbn [length]. lia.
    + unfold tick_in_range.
      change (tick50ms (exec (timer_cb s) w)) with (uint32 (tick50ms w + 1)).
      unfold uint32. apply Z.mod_pos_bound. lia.
Qed.

(** X2.  A sleep during which [n] timer callbacks fire advances the tick
    counter by [n] modulo 2^32 and leaves in [io] the snapshot of the last
    callback; with no callback the snapshot is the one before the sleep.
    State, error code and output pins are as before the sleep. *)
Theorem vTaskDelay_effect (fired : list sample) (w : world)
  (Hrange : tick_in_range w) :
  tick50ms (vTaskDelay fired w)
  = (tick50ms w + Z.of_nat (length fired)) mod 4294967296 /\
  snapshot (io (vTaskDelay fired w))
  = match rev fired with
    | [] => snapshot (io w)
    | s :: _ => sampled s
    end /\
  estado_actual (vTaskDelay fired w) = estado_actual w /\
  error_code (vTaskDelay fired w) = error_code w /\
  pins (vTaskDelay fired w) = pins w.
Proof.
  split; [exact (vTaskDelay_tick fired w Hrange)|].
  split.
  - destruct (rev fired) as [|s r] eqn:Hrev.
    + assert (fired = []) as ->
        by (rewrite <- (rev_involutive fired), Hrev; reflexivity).
      reflexivity.
    + assert (fired = rev r ++ [s]) as ->
        by (rewrite <- (rev_involutive fired), Hrev; reflexivity).
      rewrite vTaskDelay_snoc. reflexivity.
  - destruct (vTaskDelay_frame fired w) as (Hs & He & _).
    destruct (vTaskDelay_pins fired w) as (Hp & _). auto.
Qed.

Lemma vTaskDelay_effect_witness :
  tick_in_range closing_midway /\
  tick50ms (vTaskDelay [obstacle; obstacle_free; obstacle] closing_midway) = 43 /\
  snapshot (io (vTaskDelay [obstacle; obstacle_free; obstacle] closing_midway))
  = sampled obstacle.
Proof.
  assert (Hr : tick_in_range closing_midway) by (vm_compute; split; [discriminate|reflexivity]).
  split; [exact Hr|].
  destruct (vTaskDelay_effect [obstacle; obstacle_free; obstacle] _ Hr)
    as (Ht & Hs & _).
  split; [exact Ht|exact Hs].
Defined.

(** ** Transients of the motor commands *)

(** X3.  Written pin by pin, [motor_parar] and [motor_cerrar] never put
    the two drive outputs high together, whatever the pins were before:
    both lower [PIN_MA] first.  [motor_abrir] raises [PIN_MA] first, so
    between its two writes both drives are high exactly when [PIN_MC] was
    high before the call.  Each command makes exactly two writes. *)
Theorem motor_command_transients (w : world) :
  (exists a b, wave (exec motor_parar w) = b :: a :: wave w /\
               both_drives a = false /\ both_drives b = false) /\
  (exists a b, wave (exec motor_cerrar w) = b :: a :: wave w /\
               both_drives a = false /\ both_drives b = false) /\
  (exists a b, wave (exec motor_abrir w) = b :: a :: wave w /\
               both_drives a = lvl_MC (pins w) /\ both_drives b = false).
Proof.
  split; [|split]; eexists; eexists; (split; [reflexivity|]); split; reflexivity.
Qed.

(** ** Outputs while a handler runs *)

Lemma loops_keep_lamp (s : estado_t) (Hs : s <> EST_INIT_CONFIG) :
  keeps_lamp (fsm_step s).
Proof.
  intros w. open_world w. destruct s; try congruence; cbn;
    destruct lsa_, lsc_, ftc_, pp_, ca_; cbn;
    try (destruct (t >? MAX_TICKS_3MIN)); try (destruct e); cbn;
    reflexivity.
Qed.

Lemma while_true_outputs (body : M ctl)
  (Hpins : keeps_pins body) (Hlamp : keeps_lamp body)
  (env : trace) (w : world) :
  pins (result_world (while_true body env w)) = pins w /\
  lamp (io (result_world (while_true body env w))) = lamp (io w).
Proof.
  split; [exact (proj1 (while_true_pins body Hpins env w))|].
  pose proof (while_true_ind (fun w0 => lamp (io w0) = lamp (io w)) body) as Hind.
  specialize (Hind (fun w0 s H => H)).
  assert (Hb : forall w0 ms w', lamp (io w0) = lamp (io w) ->
                                body w0 = (Delay ms, w') ->
                                lamp (io w') = lamp (io w)).
  { intros w0 ms w' H0 Hb. rewrite <- H0. specialize (Hlamp w0).
    rewrite Hb in Hlamp. exact Hlamp. }
  specialize (Hind Hb env w eq_refl).
  destruct (while_true body env w) as [e rest w'|w'];
    [destruct Hind as (w0 & H0 & Hr)|destruct Hind as (w0 & ms & H0 & Hr)];
    cbn [result_world]; rewrite <- H0; specialize (Hlamp w0);
    rewrite Hr in Hlamp; exact Hlamp.
Qed.

Ltac outputs_by Hp Hl :=
  match goal with
  | |- context [while_true ?b ?env ?w0] =>
      destruct (while_true_outputs b Hp Hl env w0) as [-> ->];
      repeat split
  end.

(** X4.  The outputs are those of the state whose handler ran last:
    whenever the handler of state [s] returns or sleeps, whatever the
    trace and the world it was called in, the drive pins carry the motor
    command of [s] (close drive in Closing, open drive in Opening, both low
    elsewhere), the lamp field of [io] holds the lamp code of [s], and the
    lamp pin is high exactly when that code is not Off.  In particular a
    handler never changes the motor when it leaves its state. *)
Theorem dispatch_outputs (s : estado_t) (env : trace) (w : world) :
  drives (pins (result_world (dispatch s env w))) = motor_levels (state_motor s) /\
  lamp (io (result_world (dispatch s env w))) = lamp_value (state_lamp s) /\
  lvl_LAMP (pins (result_world (dispatch s env w)))
  = negb (lamp_value (state_lamp s) =? 0).
Proof.
  unfold drives.
  destruct s; cbn [dispatch];
    unfold f_cerrando, f_abriendo, f_abierto, f_cerrado, f_parado, f_error.
  - open_world w. cbn. destruct lsa_, lsc_; repeat split.
  - outputs_by (loops_keep_pins EST_CERRANDO ltac:(discriminate))
               (loops_keep_lamp EST_CERRANDO ltac:(discriminate)).
  - outputs_by (loops_keep_pins EST_ABRIENDO ltac:(discriminate))
               (loops_keep_lamp EST_ABRIENDO ltac:(discriminate)).
  - outputs_by (loops_keep_pins EST_ABIERTO ltac:(discriminate))
               (loops_keep_lamp EST_ABIERTO ltac:(discriminate)).
  - outputs_by (loops_keep_pins EST_CERRADO ltac:(discriminate))
               (loops_keep_lamp EST_CERRADO ltac:(discriminate)).
  - outputs_by (loops_keep_pins EST_PARADO ltac:(discriminate))
               (loops_keep_lamp EST_PARADO ltac:(discriminate)).
  - destruct (error_eqb (error_code (exec f_error_entry w)) ERR_DLSA).
    + assert (Hl : keeps_lamp f_error_wait).
      { intros w0. open_world w0. cbn. destruct lsa_, lsc_; reflexivity. }
      outputs_by f_error_wait_keeps_pins Hl.
    + assert (Hl : keeps_lamp f_error_grave) by (intros w0; reflexivity).
      outputs_by f_error_grave_keeps_pins Hl.
Qed.

(** ** The transition graph *)

Lemma estado_eqb_eq (a b : estado_t) : estado_eqb a b = true -> a = b.
Proof. destruct a, b; intros H; try reflexivity; discriminate H. Qed.

Lemma returns_to_spec (r : result) (e : estado_t) :
  returns_to r e = true -> exists rest w', r = Returned e rest w'.
Proof.
  destruct r as [e' rest w'|w']; cbn; intros H; [|discriminate H].
  apply estado_eqb_eq in H. subst. eauto.
Qed.

(** Whatever a loop returns, one pass of its body returned it. *)
Lemma while_true_returned (body : M ctl) (env : trace) (w : world) e rest w' :
  while_true body env w = Returned e rest w' ->
  exists w0, body w0 = (Return e, w').
Proof.
  intros H.
  pose proof (while_true_ind (fun _ => True) body (fun _ _ _ => I)
                (fun _ _ _ _ _ => I) env w I) as Hind.
  rewrite H in Hind. destruct Hind as (w0 & _ & Hb). eauto.
Qed.

Lemma fsm_step_successor (s : estado_t) (w w' : world) (e : estado_t) :
  fsm_step s w = (Return e, w') -> In e (successors s).
Proof.
  open_world w. destruct s; cbn -[Z.gtb MAX_TICKS_3MIN];
    destruct lsa_, lsc_, ftc_, pp_, ca_; cbn -[Z.gtb MAX_TICKS_3MIN];
    try (destruct (t >? MAX_TICKS_3MIN)); try (destruct e0);
    cbn -[Z.gtb MAX_TICKS_3MIN];
    intros H; inversion H; subst; cbn; tauto.
Qed.

(** Tries every snapshot as the one the handler finds when it is called
    with an empty trace (error code [ERR_DLSA], for [f_error]). *)
Ltac pick_bool k := first [k true | k false].
Ltac probe_edge s e :=
  pick_bool ltac:(fun a => pick_bool ltac:(fun c => pick_bool ltac:(fun f =>
  pick_bool ltac:(fun p => pick_bool ltac:(fun r =>
    assert (returns_to (dispatch s [] (probe a c f p r 0 ERR_DLSA)) e = true)
      by (vm_compute; reflexivity)))))).

(** X5.  The transition graph of the controller.  The handler of a state
    can only return one of the states listed for it, never its own state,
    and every listed state is returned on some trace: Initializing goes to
    Fault, Closing, Closed or Open; Closing to Fault, Opening or Closed;
    Opening to Fault, Open or Stopped; Open to Closing or Fault; Closed to
    Opening, Closing or Fault; Stopped to Closing, Opening or Fault; Fault
    only to Initializing. *)
Theorem transition_graph (s e : estado_t) :
  (In e (successors s) <->
   exists env w rest w', dispatch s env w = Returned e rest w') /\
  ~ In s (successors s).
Proof.
  split; [split|].
  - intros Hin.
    destruct s; cbn in Hin;
      repeat (destruct Hin as [<-|Hin]); try contradiction;
      match goal with
      | |- exists env w rest w', dispatch ?s env w = Returned ?e rest w' =>
          probe_edge s e
      end;
      match goal with
      | H : returns_to (dispatch ?s ?env ?w) ?e = true |- _ =>
          destruct (returns_to_spec _ _ H) as (rest & w' & Hr);
          exists env, w, rest, w'; exact Hr
      end.
  - intros (env & w & rest & w' & Hr).
    destruct s; cbn [dispatch] in Hr;
      unfold f_cerrando, f_abriendo, f_abierto, f_cerrado, f_parado, f_error in Hr.
    + apply (fsm_step_successor EST_INIT_CONFIG w w').
      cbn [fsm_step]. unfold bind at 1.
      destruct (f_init_config w) as [e0 w0]. inversion Hr; subst. reflexivity.
    + apply while_true_returned in Hr. destruct Hr as (w0 & Hb).
      exact (fsm_step_successor EST_CERRANDO _ _ _ Hb).
    + apply while_true_returned in Hr. destruct Hr as (w0 & Hb).
      exact (fsm_step_successor EST_ABRIENDO _ _ _ Hb).
    + apply while_true_returned in Hr. destruct Hr as (w0 & Hb).
      exact (fsm_step_successor EST_ABIERTO _ _ _ Hb).
    + apply while_true_returned in Hr. destruct Hr as (w0 & Hb).
      exact (fsm_step_successor EST_CERRADO _ _ _ Hb).
    + apply while_true_returned in Hr. destruct Hr as (w0 & Hb).
      exact (fsm_step_successor EST_PARADO _ _ _ Hb).
    + destruct (error_eqb _ _); apply while_true_returned in Hr;
        destruct Hr as (w0 & Hb).
      * open_world w0. cbn in Hb. destruct lsa_, lsc_; inversion Hb; cbn; tauto.
      * discriminate Hb.
  - destruct s; cbn; intuition discriminate.
Qed.

(** ** What each handler knows when it sleeps or returns *)

(** A pass that sleeps changes neither the state nor the error code. *)
Lemma fsm_step_delay_frame (s : estado_t) (w w' : world) (ms : Z) :
  fsm_step s w = (Delay ms, w') ->
  error_code w' = error_code w /\ estado_actual w' = estado_actual w.
Proof.
  open_world w. destruct s; cbn -[Z.gtb MAX_TICKS_3MIN];
    destruct lsa_, lsc_, ftc_, pp_, ca_; cbn -[Z.gtb MAX_TICKS_3MIN];
    try (destruct (t >? MAX_TICKS_3MIN)); try (destruct e);
    cbn -[Z.gtb MAX_TICKS_3MIN];
    intros H; inversion H; subst; split; reflexivity.
Qed.

(** The pass that ends a run of the loop of state [s] started with the
    error code of [w]. *)
Lemma loop_outcome (s : estado_t) (env : trace) (w : world) :
  match while_true (fsm_step s) env w with
  | Returned e rest w' =>
      exists w0, error_code w0 = error_code w /\ fsm_step s w0 = (Return e, w')
  | Blocked w' =>
      exists w0 ms, error_code w0 = error_code w /\ fsm_step s w0 = (Delay ms, w')
  end.
Proof.
  apply (while_true_ind (fun w0 => error_code w0 = error_code w)).
  - intros w0 s0 H. exact H.
  - intros w0 ms w' H Hb. apply fsm_step_delay_frame in Hb.
    destruct Hb as [-> _]. exact H.
  - reflexivity.
Qed.

(** Reads the outcome of a handler off the last pass through its loop. *)
Ltac last_pass s env w :=
  let Hout := fresh "Hout" in
  pose proof (loop_outcome s env w) as Hout;
  cbn [fsm_step] in Hout;
  match type of Hout with
  | match ?r with _ => _ end =>
      let e' := fresh "e'" in let rest := fresh "rest" in
      let w' := fresh "w'" in let wl := fresh "wl" in
      let ms := fresh "ms" in let H0 := fresh "H0" in
      let Hb := fresh "Hb" in
      destruct r as [e' rest w'|w'];
      [destruct Hout as (wl & H0 & Hb)|destruct Hout as (wl & ms & H0 & Hb)];
      open_world wl; cbn in H0; subst
  end.

(** Settles one case of the last pass once the inputs are known. *)
Ltac settle_pass :=
  match goal with
  | Hb : _ = (_, _) |- _ =>
      cbn -[Z.gtb MAX_TICKS_3MIN] in Hb;
      try match type of Hb with
          | context [?t >? MAX_TICKS_3MIN] =>
              let Hgt := fresh "Hgt" in
              destruct (t >? MAX_TICKS_3MIN) eqn:Hgt;
              [apply gtb_MAX in Hgt|apply gtb_MAX_false in Hgt]
          end;
      inversion Hb; subst; cbn -[Z.gtb MAX_TICKS_3MIN];
      unfold fault_reason, both_limits; cbn -[Z.gtb MAX_TICKS_3MIN];
      intuition (try discriminate; try congruence; try lia)
  end.

(** X6.  Whatever the trace, [f_cerrando] goes to sleep with the close
    drive on only after a snapshot with the photocell and the closed limit
    inactive and the tick not above the threshold; it returns Opening only
    on a snapshot with the photocell active, Closed only on one with the
    closed limit active and the photocell and the open limit inactive, and
    Fault either with [ERR_DLSA] on both limits active or with
    [ERR_TIMEOUT] on a tick above the threshold with photocell and closed
    limit inactive.  It returns no other state, and sets the error code
    only when it returns Fault. *)
Theorem f_cerrando_outcome (env : trace) (w : world) :
  cerrando_outcome (error_code w) (f_cerrando env w).
Proof.
  unfold f_cerrando.
  change (error_code w) with (error_code (exec f_cerrando_entry w)).
  generalize (exec f_cerrando_entry w). clear w. intros w.
  last_pass EST_CERRANDO env w; unfold cerrando_outcome;
    destruct lsa_, lsc_, ftc_; settle_pass.
Qed.

(** X7.  Whatever the trace, [f_abriendo] goes to sleep with the open
    drive on only after a snapshot with the open limit inactive, the push
    button released and the tick not above the threshold; it returns Open
    only on a snapshot with the open limit active and the closed limit
    inactive, Stopped only on one with the push button pressed and the
    open limit inactive, and Fault either with [ERR_DLSA] on both limits
    active or with [ERR_TIMEOUT] on a tick above the threshold. *)
Theorem f_abriendo_outcome (env : trace) (w : world) :
  abriendo_outcome (error_code w) (f_abriendo env w).
Proof.
  unfold f_abriendo.
  change (error_code w) with (error_code (exec f_abriendo_entry w)).
  generalize (exec f_abriendo_entry w). clear w. intros w.
  last_pass EST_ABRIENDO env w; unfold abriendo_outcome;
    destruct lsa_, lsc_, pp_; settle_pass.
Qed.

(** X8.  Whatever the trace, [f_abierto] returns Closing only on a
    snapshot with the photocell inactive and the push button or the remote
    command active: it never starts closing under an obstruction.  It
    returns Fault only with photocell and commands inactive (both limits
    active, or tick above the threshold), and it sleeps either with the
    photocell active and the tick reset to zero, or with nothing to act
    on. *)
Theorem f_abierto_outcome (env : trace) (w : world) :
  abierto_outcome (error_code w) (f_abierto env w).
Proof.
  unfold f_abierto.
  change (error_code w) with (error_code (exec f_abierto_entry w)).
  generalize (exec f_abierto_entry w). clear w. intros w.
  last_pass EST_ABIERTO env w; unfold abierto_outcome;
    destruct lsa_, lsc_, ftc_, pp_, ca_; settle_pass.
Qed.

(** X9.  [f_cerrado] and [f_parado] have no timeout: whatever the trace
    and however large the tick counter, they return Fault only with
    [ERR_DLSA] on both limits active and no earlier guard matching.
    [f_cerrado] sleeps only while exactly one limit switch is active and
    no command is given (the open limit alone keeps it asleep as well as
    the closed one); [f_parado] sleeps only while none of its three guards
    matches. *)
Theorem f_cerrado_f_parado_outcome (env : trace) (w : world) :
  cerrado_outcome (error_code w) (f_cerrado env w) /\
  parado_outcome (error_code w) (f_parado env w).
Proof.
  split.
  - unfold f_cerrado.
    change (error_code w) with (error_code (exec f_cerrado_entry w)).
    generalize (exec f_cerrado_entry w). clear w. intros w.
    last_pass EST_CERRADO env w; unfold cerrado_outcome;
      destruct lsa_, lsc_, pp_, ca_; settle_pass.
  - unfold f_parado.
    change (error_code w) with (error_code (exec f_parado_entry w)).
    generalize (exec f_parado_entry w). clear w. intros w.
    last_pass EST_PARADO env w; unfold parado_outcome;
      destruct lsa_, lsc_, ftc_, pp_; settle_pass.
Qed.

(** ** Handlers on traces where nothing happens *)

Lemma callbacks_cons (fired : list sample) (env : trace) :
  Z.of_nat (callbacks (fired :: env))
  = Z.of_nat (length fired) + Z.of_nat (callbacks env).
Proof.
  unfold callbacks. cbn [concat]. rewrite length_app. lia.
Qed.

(** A loop that, on the snapshots it meets, only watches the tick: it
    sleeps until the callbacks since its start have taken the tick above
    the threshold, then returns Fault with [ERR_TIMEOUT]. *)
Lemma timed_loop (body : M ctl) (Q : world -> Prop) (P : sample -> Prop)
  (Hcb : forall s w, P s -> Q (exec (timer_cb s) w))
  (Hbody : forall w, Q w ->
           body w = if tick50ms w >? MAX_TICKS_3MIN
                    then (Return EST_ERROR, exec (set_error_code ERR_TIMEOUT) w)
                    else (Delay 50, w)) :
  forall env w,
    Q w -> tick_in_range w -> Forall (Forall P) env ->
    tick50ms w + Z.of_nat (callbacks env) < 4294967296 ->
    (tick50ms w + Z.of_nat (callbacks env) <= MAX_TICKS_3MIN ->
     exists w', while_true body env w = Blocked w' /\
                tick50ms w' = tick50ms w + Z.of_nat (callbacks env) /\
                error_code w' = error_code w /\ pins w' = pins w) /\
    (MAX_TICKS_3MIN < tick50ms w + Z.of_nat (callbacks env) ->
     exists rest w', while_true body env w = Returned EST_ERROR rest w' /\
                     error_code w' = ERR_TIMEOUT /\
                     MAX_TICKS_3MIN < tick50ms w' /\ pins w' = pins w).
Proof.
  induction env as [|fired env IH]; intros w HQ Hr Henv Hlt;
    cbn [while_true]; rewrite (Hbody w HQ);
    destruct (tick50ms w >? MAX_TICKS_3MIN) eqn:Hgt;
    [apply gtb_MAX in Hgt|apply gtb_MAX_false in Hgt
    |apply gtb_MAX in Hgt|apply gtb_MAX_false in Hgt].
  - split; [intros H; cbn in H; lia|].
    intros _. eexists. eexists. split; [reflexivity|]. repeat split. cbn. lia.
  - split; [|intros H; cbn in H; lia].
    intros _. exists w. cbn. repeat split. lia.
  - split; [intros H; pose proof (Nat2Z.is_nonneg (callbacks (fired :: env))); lia|].
    intros _. eexists. eexists. split; [reflexivity|]. repeat split. cbn. lia.
  - rewrite callbacks_cons in Hlt |- *.
    inversion Henv as [|? ? Hfired Henv']; subst.
    pose proof (Nat2Z.is_nonneg (callbacks env)) as Hn.
    pose proof (Nat2Z.is_nonneg (length fired)) as Hf.
    assert (Ht1 : tick50ms (vTaskDelay fired w)
                  = tick50ms w + Z.of_nat (length fired)).
    { rewrite (vTaskDelay_tick fired w Hr). unfold uint32.
      apply Z.mod_small. unfold tick_in_range in Hr. lia. }
    assert (Hr1 : tick_in_range (vTaskDelay fired w)).
    { unfold tick_in_range in *. rewrite Ht1. lia. }
    assert (HQ1 : Q (vTaskDelay fired w)).
    { apply (vTaskDelay_inputs Q P Hcb); assumption. }
    destruct (IH (vTaskDelay fired w) HQ1 Hr1 Henv' ltac:(rewrite Ht1; lia))
      as [Hsleep Hgive].
    destruct (vTaskDelay_frame fired w) as (_ & He & _).
    destruct (vTaskDelay_pins fired w) as (Hp & _).
    split.
    + intros Hle.
      destruct (Hsleep ltac:(rewrite Ht1; lia)) as (w' & Hrun & Ht & He' & Hp').
      exists w'. split; [exact Hrun|]. rewrite Ht, He', Hp', Ht1, He, Hp.
      repeat split. lia.
    + intros Hover.
      destruct (Hgive ltac:(rewrite Ht1; lia)) as (rest & w' & Hrun & He' & Ht & Hp').
      exists rest, w'. split; [exact Hrun|]. rewrite Hp', Hp. auto.
Qed.

(** A loop that has nothing to act on sleeps through the whole trace; the
    world it ends in is the one it started in after all the callbacks. *)
Lemma untimed_loop (body : M ctl) (Q : world -> Prop) (P : sample -> Prop)
  (Hcb : forall s w, P s -> Q (exec (timer_cb s) w))
  (Hbody : forall w, Q w -> body w = (Delay 50, w)) :
  forall env w, Q w -> Forall (Forall P) env ->
  while_true body env w = Blocked (vTaskDelay (concat env) w).
Proof.
  induction env as [|fired env IH]; intros w HQ Henv;
    cbn [while_true]; rewrite (Hbody w HQ).
  - reflexivity.
  - inversion Henv as [|? ? Hfired Henv']; subst.
    rewrite IH; [|apply (vTaskDelay_inputs Q P Hcb); assumption|exact Henv'].
    cbn [concat]. unfold vTaskDelay. rewrite fold_left_app. reflexivity.
Qed.

Lemma f_abriendo_loop_timeout_guard (w : world) (Hidle : io_idle_opening w) :
  fsm_step EST_ABRIENDO w
  = if tick50ms w >? MAX_TICKS_3MIN
    then (Return EST_ERROR, exec (set_error_code ERR_TIMEOUT) w)
    else (Delay 50, w).
Proof.
  destruct Hidle as [Ha Hp]. open_world w. cbn in Ha, Hp. subst.
  cbn -[Z.gtb MAX_TICKS_3MIN]. destruct (t >? MAX_TICKS_3MIN); reflexivity.
Qed.

Lemma f_abierto_loop_timeout_guard (w : world) (Hidle : io_idle_open w) :
  fsm_step EST_ABIERTO w
  = if tick50ms w >? MAX_TICKS_3MIN
    then (Return EST_ERROR, exec (set_error_code ERR_TIMEOUT) w)
    else (Delay 50, w).
Proof.
  destruct Hidle as (Hf & Hp & Hc & Hb). open_world w.
  unfold both_limits in Hb. cbn in Hf, Hp, Hc, Hb. subst.
  destruct lsa_, lsc_; try discriminate Hb;
    cbn -[Z.gtb MAX_TICKS_3MIN]; destruct (t >? MAX_TICKS_3MIN); reflexivity.
Qed.

Lemma tick_in_range_0 (w : world) : tick_in_range (exec (set_tick50ms 0) w).
Proof. vm_compute. split; [discriminate|reflexivity]. Qed.

(** X10.  Closing with nothing happening.  When [f_cerrando] is called
    with photocell and closed limit inactive and every later sample finds
    them so, it sleeps with the close drive on as long as no more than
    3600 timer callbacks have fired since its entry, its tick counting
    exactly those callbacks; on a trace with more callbacks it returns
    Fault with [ERR_TIMEOUT], the close drive still on when it returns. *)
Theorem f_cerrando_idle_timeout (env : trace) (w : world)
  (Hidle : io_idle_closing w)
  (Henv : Forall (Forall idle_closing) env)
  (Hn : Z.of_nat (callbacks env) < 4294967296) :
  (Z.of_nat (callbacks env) <= MAX_TICKS_3MIN ->
   exists w', f_cerrando env w = Blocked w' /\
              tick50ms w' = Z.of_nat (callbacks env) /\
              error_code w' = error_code w /\
              drives (pins w') = motor_levels MotorClose) /\
  (MAX_TICKS_3MIN < Z.of_nat (callbacks env) ->
   exists rest w', f_cerrando env w = Returned EST_ERROR rest w' /\
                   error_code w' = ERR_TIMEOUT /\
                   drives (pins w') = motor_levels MotorClose).
Proof.
  unfold f_cerrando.
  destruct (timed_loop f_cerrando_loop io_idle_closing idle_closing
              ltac:(intros s w0 [Hf Hc]; split; assumption)
              ltac:(intros w0 [Hf Hc]; exact (f_cerrando_loop_timeout_guard w0 Hc Hf))
              env (exec f_cerrando_entry w) Hidle
              ltac:(vm_compute; split; [discriminate|reflexivity]) Henv Hn)
    as [Hsleep Hgive].
  split.
  - intros Hle. destruct (Hsleep Hle) as (w' & Hrun & Ht & He & Hp).
    exists w'. split; [exact Hrun|]. unfold drives. rewrite Ht, He, Hp.
    repeat split.
  - intros Hover. destruct (Hgive Hover) as (rest & w' & Hrun & He & _ & Hp).
    exists rest, w'. split; [exact Hrun|]. unfold drives. rewrite Hp. auto.
Qed.

Lemma repeat_Forall {A : Type} (P : A -> Prop) (a : A) (n : nat) :
  P a -> Forall P (repeat a n).
Proof.
  intros Ha. apply Forall_forall. intros x Hx.
  apply repeat_spec in Hx. subst. exact Ha.
Qed.

Lemma f_cerrando_idle_timeout_witness :
  io_idle_closing closing_midway /\
  (exists w', f_cerrando [repeat quiet 3600] closing_midway = Blocked w' /\
              tick50ms w' = 3600) /\
  (exists rest w', f_cerrando [repeat quiet 3600; [quiet]] closing_midway
                   = Returned EST_ERROR rest w' /\ error_code w' = ERR_TIMEOUT).
Proof.
  assert (Hidle : io_idle_closing closing_midway) by (split; reflexivity).
  assert (Hq : idle_closing quiet) by (split; reflexivity).
  assert (Hlong : Forall idle_closing (repeat quiet 3600))
    by (apply repeat_Forall; exact Hq).
  split; [exact Hidle|]. split.
  - destruct (f_cerrando_idle_timeout [repeat quiet 3600] closing_midway Hidle
                (Forall_cons _ Hlong (Forall_nil _))
                ltac:(vm_compute; reflexivity)) as [Hsleep _].
    destruct (Hsleep ltac:(vm_compute; discriminate)) as (w' & Hrun & Ht & _).
    exists w'. split; [exact Hrun|]. rewrite Ht. vm_compute. reflexivity.
  - destruct (f_cerrando_idle_timeout [repeat quiet 3600; [quiet]] closing_midway
                Hidle
                (Forall_cons _ Hlong
                   (Forall_cons _ (Forall_cons _ Hq (Forall_nil _)) (Forall_nil _)))
                ltac:(vm_compute; reflexivity)) as [_ Hgive].
    destruct (Hgive ltac:(vm_compute; reflexivity)) as (rest & w' & Hrun & He & _).
    exists rest, w'. auto.
Defined.

(** X11.  Opening with nothing happening.  When [f_abriendo] is called
    with the open limit inactive and the push button released and every
    later sample finds them so, it sleeps with the open drive on as long
    as no more than 3600 timer callbacks have fired since its entry; on a
    trace with more callbacks it returns Fault with [ERR_TIMEOUT], the
    open drive still on when it returns. *)
Theorem f_abriendo_idle_timeout (env : trace) (w : world)
  (Hidle : io_idle_opening w)
  (Henv : Forall (Forall idle_opening) env)
  (Hn : Z.of_nat (callbacks env) < 4294967296) :
  (Z.of_nat (callbacks env) <= MAX_TICKS_3MIN ->
   exists w', f_abriendo env w = Blocked w' /\
              tick50ms w' = Z.of_nat (callbacks env) /\
              error_code w' = error_code w /\
              drives (pins w') = motor_levels MotorOpen) /\
  (MAX_TICKS_3MIN < Z.of_nat (callbacks env) ->
   exists rest w', f_abriendo env w = Returned EST_ERROR rest w' /\
                   error_code w' = ERR_TIMEOUT /\
                   drives (pins w') = motor_levels MotorOpen).
Proof.
  unfold f_abriendo.
  destruct (timed_loop f_abriendo_loop io_idle_opening idle_opening
              ltac:(intros s w0 [Ha Hp]; split; cbn; [rewrite Ha|rewrite Hp];
                    reflexivity)
              f_abriendo_loop_timeout_guard
              env (exec f_abriendo_entry w) Hidle
              ltac:(vm_compute; split; [discriminate|reflexivity]) Henv Hn)
    as [Hsleep Hgive].
  split.
  - intros Hle. destruct (Hsleep Hle) as (w' & Hrun & Ht & He & Hp).
    exists w'. split; [exact Hrun|]. unfold drives. rewrite Ht, He, Hp.
    repeat split.
  - intros Hover. destruct (Hgive Hover) as (rest & w' & Hrun & He & _ & Hp).
    exists rest, w'. split; [exact Hrun|]. unfold drives. rewrite Hp. auto.
Qed.

Lemma f_abriendo_idle_timeout_witness :
  io_idle_opening opening_midway /\
  (exists w', f_abriendo [repeat quiet 3600] opening_midway = Blocked w' /\
              tick50ms w' = 3600) /\
  (exists rest w', f_abriendo [repeat quiet 3600; [quiet]] opening_midway
                   = Returned EST_ERROR rest w' /\ error_code w' = ERR_TIMEOUT).
Proof.
  assert (Hidle : io_idle_opening opening_midway) by (split; reflexivity).
  assert (Hq : idle_opening quiet) by (split; reflexivity).
  assert (Hlong : Forall idle_opening (repeat quiet 3600))
    by (apply repeat_Forall; exact Hq).
  split; [exact Hidle|]. split.
  - destruct (f_abriendo_idle_timeout [repeat quiet 3600] opening_midway Hidle
                (Forall_cons _ Hlong (Forall_nil _))
                ltac:(vm_compute; reflexivity)) as [Hsleep _].
    destruct (Hsleep ltac:(vm_compute; discriminate)) as (w' & Hrun & Ht & _).
    exists w'. split; [exact Hrun|]. rewrite Ht. vm_compute. reflexivity.
  - destruct (f_abriendo_idle_timeout [repeat quiet 3600; [quiet]] opening_midway
                Hidle
                (Forall_cons _ Hlong
                   (Forall_cons _ (Forall_cons _ Hq (Forall_nil _)) (Forall_nil _)))
                ltac:(vm_compute; reflexivity)) as [_ Hgive].
    destruct (Hgive ltac:(vm_compute; reflexivity)) as (rest & w' & Hrun & He & _).
    exists rest, w'. auto.
Defined.

(** X12.  A gate left open faults.  [f_abierto] watches the tick although
    the motor is stopped: called with photocell and commands inactive and
    the limits not both active, and with every later sample the same, it
    sleeps as long as no more than 3600 timer callbacks have fired since
    its entry, and on a trace with more callbacks it returns Fault with
    [ERR_TIMEOUT], the motor stopped all along. *)
Theorem f_abierto_idle_timeout (env : trace) (w : world)
  (Hidle : io_idle_open w)
  (Henv : Forall (Forall idle_open) env)
  (Hn : Z.of_nat (callbacks env) < 4294967296) :
  (Z.of_nat (callbacks env) <= MAX_TICKS_3MIN ->
   exists w', f_abierto env w = Blocked w' /\
              tick50ms w' = Z.of_nat (callbacks env) /\
              error_code w' = error_code w /\
              drives (pins w') = motor_levels MotorStop) /\
  (MAX_TICKS_3MIN < Z.of_nat (callbacks env) ->
   exists rest w', f_abierto env w = Returned EST_ERROR rest w' /\
                   error_code w' = ERR_TIMEOUT /\
                   drives (pins w') = motor_levels MotorStop).
Proof.
  unfold f_abierto.
  destruct (timed_loop f_abierto_loop io_idle_open idle_open
              ltac:(intros s w0 (Hf & Hp & Hc & Hb); unfold io_idle_open, both_limits;
                    cbn; rewrite Hf, Hp, Hc, Hb; repeat split)
              f_abierto_loop_timeout_guard
              env (exec f_abierto_entry w) Hidle
              ltac:(vm_compute; split; [discriminate|reflexivity]) Henv Hn)
    as [Hsleep Hgive].
  split.
  - intros Hle. destruct (Hsleep Hle) as (w' & Hrun & Ht & He & Hp).
    exists w'. split; [exact Hrun|]. unfold drives. rewrite Ht, He, Hp.
    repeat split.
  - intros Hover. destruct (Hgive Hover) as (rest & w' & Hrun & He & _ & Hp).
    exists rest, w'. split; [exact Hrun|]. unfold drives. rewrite Hp. auto.
Qed.

Lemma f_abierto_idle_timeout_witness :
  io_idle_open open_at_rest /\
  (exists w', f_abierto [repeat open_limit_sample 3600] open_at_rest = Blocked w' /\
              tick50ms w' = 3600) /\
  (exists rest w',
     f_abierto [repeat open_limit_sample 3600; [open_limit_sample]] open_at_rest
     = Returned EST_ERROR rest w' /\ error_code w' = ERR_TIMEOUT).
Proof.
  assert (Hidle : io_idle_open open_at_rest) by (repeat split).
  assert (Hq : idle_open open_limit_sample) by (repeat split).
  assert (Hlong : Forall idle_open (repeat open_limit_sample 3600))
    by (apply repeat_Forall; exact Hq).
  split; [exact Hidle|]. split.
  - destruct (f_abierto_idle_timeout [repeat open_limit_sample 3600] open_at_rest
                Hidle (Forall_cons _ Hlong (Forall_nil _))
                ltac:(vm_compute; reflexivity)) as [Hsleep _].
    destruct (Hsleep ltac:(vm_compute; discriminate)) as (w' & Hrun & Ht & _).
    exists w'. split; [exact Hrun|]. rewrite Ht. vm_compute. reflexivity.
  - destruct (f_abierto_idle_timeout
                [repeat open_limit_sample 3600; [open_limit_sample]] open_at_rest
                Hidle
                (Forall_cons _ Hlong
                   (Forall_cons _ (Forall_cons _ Hq (Forall_nil _)) (Forall_nil _)))
                ltac:(vm_compute; reflexivity)) as [_ Hgive].
    destruct (Hgive ltac:(vm_compute; reflexivity)) as (rest & w' & Hrun & He & _).
    exists rest, w'. auto.
Defined.

(** X13.  Closed and Stopped wait for ever.  Called with nothing to act
    on (for Closed: no command and exactly one limit active; for Stopped:
    push button released and open limit inactive) and with every later
    sample the same, [f_cerrado] and [f_parado] sleep through any trace,
    however long, with the motor stopped.  Neither resets the tick: it
    keeps counting the callbacks from the value it had, modulo 2^32. *)
Theorem f_cerrado_f_parado_idle (env : trace) (w : world)
  (Hrange : tick_in_range w) :
  (io_idle_closed w -> Forall (Forall idle_closed) env ->
   exists w', f_cerrado env w = Blocked w' /\
              tick50ms w' = (tick50ms w + Z.of_nat (callbacks env)) mod 4294967296 /\
              error_code w' = error_code w /\
              drives (pins w') = motor_levels MotorStop) /\
  (io_idle_stopped w -> Forall (Forall idle_stopped) env ->
   exists w', f_parado env w = Blocked w' /\
              tick50ms w' = (tick50ms w + Z.of_nat (callbacks env)) mod 4294967296 /\
              error_code w' = error_code w /\
              drives (pins w') = motor_levels MotorStop).
Proof.
  split; intros Hidle Henv.
  - unfold f_cerrado.
    rewrite (untimed_loop f_cerrado_loop io_idle_closed idle_closed); auto.
    + eexists. split; [reflexivity|].
      destruct (vTaskDelay_effect (concat env) (exec f_cerrado_entry w) Hrange)
        as (Ht & _ & _ & He & Hp).
      unfold drives. rewrite Ht, He, Hp. repeat split.
    + intros s w0 (Hp & Hc & Hx). unfold io_idle_closed. cbn.
      rewrite Hp, Hc, Hx. repeat split.
    + intros w0 (Hp & Hc & Hx). open_world w0. cbn in Hp, Hc, Hx. subst.
      destruct lsa_, lsc_; try discriminate Hx; reflexivity.
  - unfold f_parado.
    rewrite (untimed_loop f_parado_loop io_idle_stopped idle_stopped); auto.
    + eexists. split; [reflexivity|].
      destruct (vTaskDelay_effect (concat env) (exec f_parado_entry w) Hrange)
        as (Ht & _ & _ & He & Hp).
      unfold drives. rewrite Ht, He, Hp. repeat split.
    + intros s w0 (Hp & Ha). unfold io_idle_stopped. cbn.
      rewrite Hp, Ha. repeat split.
    + intros w0 (Hp & Ha). open_world w0. cbn in Hp, Ha. subst. reflexivity.
Qed.

Lemma f_cerrado_f_parado_idle_witness :
  tick_in_range closed_at_rest /\
  io_idle_closed closed_at_rest /\
  exists w', f_cerrado [repeat closed_limit_sample 5000; []] closed_at_rest
             = Blocked w' /\
             tick50ms w' = 9000 /\ error_code w' = ERR_OK.
Proof.
  assert (Hr : tick_in_range closed_at_rest)
    by (vm_compute; split; [discriminate|reflexivity]).
  assert (Hidle : io_idle_closed closed_at_rest) by (repeat split).
  assert (Hq : idle_closed closed_limit_sample) by (repeat split).
  assert (Hlong : Forall idle_closed (repeat closed_limit_sample 5000))
    by (apply repeat_Forall; exact Hq).
  split; [exact Hr|]. split; [exact Hidle|].
  destruct (f_cerrado_f_parado_idle [repeat closed_limit_sample 5000; []]
              closed_at_rest Hr) as [Hclosed _].
  destruct (Hclosed Hidle
              (Forall_cons _ Hlong (Forall_cons _ (Forall_nil _) (Forall_nil _))))
    as (w' & Hrun & Ht & He & _).
  exists w'. split; [exact Hrun|]. rewrite Ht, He. split; vm_compute; reflexivity.
Defined.

(** ** Invariants from power-on *)

Lemma timer_cb_io_sound (s : sample) (w : world) :
  io_sound w -> io_sound (exec (timer_cb s) w).
Proof.
  intros (Hma & Hmc & Hr & Hl & Hp).
  destruct (timer_cb_effect s w Hr) as (_ & Hr' & _ & _ & _ & El & Ema & Emc & Ep & _).
  unfold io_sound. rewrite El, Ema, Emc, Ep. auto.
Qed.

Lemma timer_cb_sound (s : sample) (w : world) :
  sound w -> sound (exec (timer_cb s) w).
Proof.
  intros [Hc Hio]. split; [exact Hc|exact (timer_cb_io_sound s w Hio)].
Qed.

Lemma vTaskDelay_sound (fired : list sample) :
  forall w, sound w -> sound (vTaskDelay fired w).
Proof.
  induction fired as [|s fired IH]; intros w Hw; [exact Hw|].
  rewrite vTaskDelay_cons. apply IH, timer_cb_sound, Hw.
Qed.

(** A loop whose passes keep [loop_inv] while they sleep and establish
    [sound] when they return, ends in a sound world on every trace. *)
Lemma loop_sound (body : M ctl) (s : estado_t) (c : error_t)
  (Hsc : code_sound s c)
  (Hbody : forall w0 r w', loop_inv s c w0 -> body w0 = (r, w') ->
           match r with
           | Delay _ => loop_inv s c w'
           | Return e => sound (exec (set_estado_actual e) w')
           end) :
  forall env w, loop_inv s c w ->
  match while_true body env w with
  | Returned e rest w' => sound (exec (set_estado_actual e) w')
  | Blocked w' => sound w'
  end.
Proof.
  intros env w Hw.
  pose proof (while_true_ind (loop_inv s c) body) as Hind.
  assert (Hcb : forall w0 s0, loop_inv s c w0 -> loop_inv s c (exec (timer_cb s0) w0)).
  { intros w0 s0 (Hs & Hc & Hio). split; [exact Hs|]. split; [exact Hc|].
    exact (timer_cb_io_sound s0 w0 Hio). }
  specialize (Hind Hcb (fun w0 ms w' H0 Hb => Hbody w0 (Delay ms) w' H0 Hb) env w Hw).
  destruct (while_true body env w) as [e rest w'|w'].
  - destruct Hind as (w0 & H0 & Hb). exact (Hbody w0 (Return e) w' H0 Hb).
  - destruct Hind as (w0 & ms & H0 & Hb).
    destruct (Hbody w0 (Delay ms) w' H0 Hb) as (Hs & Hc & Hio).
    split; [rewrite Hs, Hc; exact Hsc|exact Hio].
Qed.

(** Settles one pass of a loop for [loop_sound]. *)
Ltac sound_pass :=
  let w0 := fresh "w0" in let r := fresh "r" in let w' := fresh "w'" in
  let Hs := fresh "Hs" in let Hc := fresh "Hc" in let Hio := fresh "Hio" in
  let Hb := fresh "Hb" in
  intros w0 r w' (Hs & Hc & Hio) Hb;
  open_world w0; cbn in Hs, Hc; subst;
  unfold io_sound, tick_in_range in Hio; cbn in Hio;
  cbn -[Z.gtb MAX_TICKS_3MIN] in Hb;
  repeat match type of Hb with
         | context [if ?b then _ else _] =>
             destruct b; cbn -[Z.gtb MAX_TICKS_3MIN] in Hb
         end;
  inversion Hb; subst;
  unfold sound, loop_inv, code_sound, io_sound, tick_in_range; cbn;
  intuition (try discriminate; try congruence; auto; try reflexivity).

Lemma entry_loop_inv (s : estado_t) (w : world)
  (Hs : s <> EST_INIT_CONFIG) (Hstate : estado_actual w = s) (Hio : io_sound w) :
  loop_inv s (error_code w) (exec (fsm_entry s) w).
Proof.
  destruct Hio as (Hma & Hmc & Hr & Hl & Hp). unfold tick_in_range in Hr.
  open_world w. cbn in Hma, Hmc, Hr, Hstate. subst.
  unfold loop_inv, io_sound, tick_in_range.
  destruct s; try congruence; cbn; repeat split; auto; try lia; discriminate.
Qed.

Lemma code_sound_ok (s : estado_t) (c : error_t)
  (Hs : s <> EST_ERROR) (Hi : s <> EST_INIT_CONFIG) :
  code_sound s c -> c = ERR_OK.
Proof.
  intros [_ H]. destruct c; [reflexivity| |];
    (destruct H as [H|H]; [discriminate|congruence|congruence]).
Qed.

(** Runs the loop of a moving or resting state from a sound world. *)
Ltac sound_loop s :=
  match goal with
  | Hc : code_sound s (error_code ?w), Hio : io_sound ?w,
    Hs : estado_actual ?w = s |- _ =>
      let Hok := fresh "Hok" in
      assert (Hok : error_code w = ERR_OK)
        by (apply (code_sound_ok s); [discriminate|discriminate|exact Hc]);
      pose proof (entry_loop_inv s w ltac:(discriminate) Hs Hio) as Hentry;
      rewrite Hok in Hentry;
      apply (loop_sound (fsm_step s) s ERR_OK);
      [split; [discriminate|congruence]|sound_pass|exact Hentry]
  end.

(** Every handler takes a sound world to a sound world. *)
Lemma dispatch_sound (env : trace) (w : world) :
  sound w ->
  match dispatch (estado_actual w) env w with
  | Returned e rest w' => sound (exec (set_estado_actual e) w')
  | Blocked w' => sound w'
  end.
Proof.
  intros [Hc Hio]. destruct (estado_actual w) eqn:Hs; cbn [dispatch];
    unfold f_cerrando, f_abriendo, f_abierto, f_cerrado, f_parado.
  - destruct Hio as (Hma & Hmc & Hr & Hl & Hp).
    open_world w. cbn in Hma, Hmc. subst.
    unfold sound, code_sound, io_sound, tick_in_range.
    cbn. destruct lsa_, lsc_; cbn;
      intuition (try discriminate; try congruence; auto; try lia).
  - sound_loop EST_CERRANDO.
  - sound_loop EST_ABRIENDO.
  - sound_loop EST_ABIERTO.
  - sound_loop EST_CERRADO.
  - sound_loop EST_PARADO.
  - pose proof (entry_loop_inv EST_ERROR w ltac:(discriminate) Hs Hio) as Hentry.
    unfold f_error.
    change (error_code (exec f_error_entry w)) with (error_code w).
    cbn [fsm_entry] in Hentry.
    destruct (error_code w) eqn:Hcode; cbn [error_eqb].
    + destruct Hc as [Hc _]. exfalso. apply Hc; reflexivity.
    + apply (loop_sound f_error_wait EST_ERROR ERR_DLSA);
        [split; [discriminate|auto]|sound_pass|exact Hentry].
    + apply (loop_sound f_error_grave EST_ERROR ERR_TIMEOUT);
        [split; [discriminate|auto]|sound_pass|exact Hentry].
Qed.

Lemma app_main_loop_sound (n : nat) :
  forall env w w', sound w -> app_main_loop n env w = Some w' -> sound w'.
Proof.
  induction n as [|n IH]; intros env w w' Hw H; cbn in H; [discriminate|].
  pose proof (dispatch_sound env w Hw) as Hd.
  destruct (dispatch (estado_actual w) env w) as [e rest w1|w1].
  - destruct rest as [|fired rest].
    + injection H as <-. exact Hd.
    + apply (IH rest (vTaskDelay fired (exec (set_estado_actual e) w1)));
        [apply vTaskDelay_sound; exact Hd|exact H].
  - injection H as <-. exact Hd.
Qed.

Lemma power_on_sound : sound (exec setup_hardware power_on).
Proof.
  unfold sound, code_sound, io_sound, tick_in_range. cbn.
  intuition (try discriminate; try congruence; try lia).
Qed.

Lemma app_main_sound (env : trace) :
  exists w, app_main env = Some w /\ sound w /\ both_drives (pins w) = false.
Proof.
  destruct (app_main_total env) as (w & Hrun).
  exists w. split; [exact Hrun|]. split.
  - exact (app_main_loop_sound _ _ _ _ power_on_sound Hrun).
  - exact (app_main_loop_quiescent _ _ _ _ Hrun).
Qed.

(** X14.  State and error code agree in every run from power-on.  On
    every trace the main loop reaches a world (it never runs out of
    turns); there, if the state is Fault an error code is recorded, and if
    an error code is recorded the state is Fault, or Initializing on the
    way back from Fault.  So [f_error] is never entered with [ERR_OK]. *)
Theorem app_main_fault_has_code (env : trace) :
  exists w, app_main env = Some w /\
            (estado_actual w = EST_ERROR -> error_code w <> ERR_OK) /\
            (error_code w <> ERR_OK ->
             estado_actual w = EST_ERROR \/ estado_actual w = EST_INIT_CONFIG).
Proof.
  destruct (app_main_sound env) as (w & Hrun & [[HA HB] _] & _).
  exists w. auto.
Qed.

(** X15.  The fields [ma] and [mc] of [io] are never written: in every
    run from power-on they read 0, also while a drive pin is high (the
    run of the failing-drive example ends with [PIN_MA] high and [io.ma]
    clear). *)
Theorem app_main_io_motor_fields_unused (env : trace) :
  (exists w, app_main env = Some w /\ ma (io w) = false /\ mc (io w) = false) /\
  (exists w, app_main [[obstacle]; []] = Some w /\
             lvl_MA (pins w) = true /\ ma (io w) = false).
Proof.
  split.
  - destruct (app_main_sound env) as (w & Hrun & [_ (Hma & Hmc & _)] & _).
    exists w. auto.
  - eexists. split; [vm_compute; reflexivity|]. split; reflexivity.
Qed.

(** X16.  In every run from power-on the tick counter holds a value below
    2^32, the lamp field of [io] holds one of the codes 0 to 3, the lamp
    pin is high exactly when that code is not 0, and at most one of the
    two drive pins is high whenever the controller sleeps. *)
Theorem app_main_outputs_consistent (env : trace) :
  exists w, app_main env = Some w /\
            0 <= tick50ms w < 4294967296 /\
            0 <= lamp (io w) <= 3 /\
            lvl_LAMP (pins w) = negb (lamp (io w) =? 0) /\
            both_drives (pins w) = false.
Proof.
  destruct (app_main_sound env) as (w & Hrun & [_ (_ & _ & Hr & Hl & Hp)] & Hd).
  exists w. auto.
Qed.

(** ** The main loop sleeps on every turn *)

(** X17.  The main loop never spins: every turn either ends asleep in a
    handler or sleeps in [vTaskDelay(10)], so on a trace of [n] sleeps it
    makes at most [n + 1] turns.  Any number of turns above the length of
    the trace gives the same world. *)
Theorem app_main_loop_turns (n m : nat) (env : trace) (w : world)
  (Hn : (length env < n)%nat) (Hm : (length env < m)%nat) :
  app_main_loop n env w = app_main_loop m env w /\
  exists w', app_main_loop n env w = Some w'.
Proof.
  split; [|exact (app_main_loop_total n env w Hn)].
  revert m env w Hn Hm.
  induction n as [|n IH]; intros m env w Hn Hm; [lia|].
  destruct m as [|m]; [lia|]. cbn [app_main_loop].
  destruct (dispatch (estado_actual w) env w) as [e rest w1|w1] eqn:Hd;
    [|reflexivity].
  apply dispatch_rest in Hd.
  destruct rest as [|fired rest]; [reflexivity|].
  cbn [length] in Hd. apply IH; lia.
Qed.

Lemma app_main_loop_turns_witness :
  (length [[obstacle]; []] < 3)%nat /\
  (length [[obstacle]; []] < 7)%nat /\
  app_main_loop 3 [[obstacle]; []] power_on = app_main_loop 7 [[obstacle]; []] power_on.
Proof.
  assert (H3 : (length [[obstacle]; []] < 3)%nat) by (cbn; lia).
  assert (H7 : (length [[obstacle]; []] < 7)%nat) by (cbn; lia).
  split; [exact H3|]. split; [exact H7|].
  exact (proj1 (app_main_loop_turns 3 7 [[obstacle]; []] power_on H3 H7)).
Defined.

(** ** The close drive is raised before the photocell is looked at *)

(** X18.  [f_cerrando] raises the close drive before it looks at any
    input: called with the photocell active (and the limits not both
    active) it returns Opening at once, without sleeping and without
    using the trace, but it has run [motor_cerrar]: the close drive is
    high when it returns and stays so until the next handler runs. *)
Theorem f_cerrando_pulses_close_drive (env : trace) (w : world)
  (Hftc : ftc (io w) = true) (Hlim : both_limits w = false) :
  exists w', f_cerrando env w = Returned EST_ABRIENDO env w' /\
             drives (pins w') = motor_levels MotorClose /\
             hd_error (wave w') = Some (mk_outputs false true true) /\
             error_code w' = error_code w.
Proof.
  unfold f_cerrando. open_world w. unfold both_limits in Hlim.
  cbn in Hftc, Hlim. subst.
  destruct lsa_, lsc_; try discriminate Hlim;
    (eexists; split; [destruct env; reflexivity|]; repeat split).
Qed.

Lemma f_cerrando_pulses_close_drive_witness :
  ftc (io closed_drifted_under_beam) = true /\
  both_limits closed_drifted_under_beam = false /\
  exists w', f_cerrando [[quiet]] closed_drifted_under_beam
             = Returned EST_ABRIENDO [[quiet]] w' /\
             drives (pins w') = motor_levels MotorClose.
Proof.
  split; [reflexivity|]. split; [reflexivity|].
  destruct (f_cerrando_pulses_close_drive [[quiet]] closed_drifted_under_beam
              eq_refl eq_refl) as (w' & Hrun & Hp & _).
  exists w'. auto.
Defined.
